(** * Verification of the GNSS snapshot dataset reader ([dataset.py])

    The development embeds the [Dataset] class: the snapshot decoder
    ([get_snapshot]), the construction of the ground truth ([__init__]) and
    the horizontal error ([get_error]).  NumPy's [float32] / [float64] values
    are IEEE 754 binary32 / binary64 numbers, modelled with the executable
    specification of the Standard Library ([SpecFloat]). *)

From Stdlib Require Import ZArith List String Ascii Bool Lia.
From Stdlib Require Import Strings.Byte DecimalString SpecFloat.
From Stdlib Require Import QArith Qabs Qpower Reals Lra Psatz.
Import ListNotations.

Local Open Scope Z_scope.

(** ** IEEE 754 formats used by the program *)

Module F32.
Definition prec : Z := 24.
Definition emax : Z := 128.
Definition add := SFadd prec emax.
Definition sub := SFsub prec emax.
Definition div := SFdiv prec emax.
(** Nearest binary32 number of an integer. *)
Definition of_Z (z : Z) : spec_float := binary_normalize prec emax z 0 false.
Definition is_finite (x : spec_float) : bool :=
  match x with S754_zero _ | S754_finite _ _ _ => true | _ => false end.
(** The rational number a finite value stands for. *)
Definition to_Q (x : spec_float) : Q :=
  match x with
  | S754_finite s m e => (inject_Z (cond_Zopp s (Zpos m)) * Qpower 2 e)%Q
  | _ => 0%Q
  end.
End F32.

Module F64.
Definition prec : Z := 53.
Definition emax : Z := 1024.
Definition add := SFadd prec emax.
Definition sub := SFsub prec emax.
Definition mul := SFmul prec emax.
Definition div := SFdiv prec emax.
Definition sqrt := SFsqrt prec emax.
Definition of_Z (z : Z) : spec_float := binary_normalize prec emax z 0 false.
Definition inf : spec_float := S754_infinity false.
Definition is_nan (x : spec_float) : bool :=
  match x with S754_nan => true | _ => false end.
Definition is_finite (x : spec_float) : bool :=
  match x with S754_zero _ | S754_finite _ _ _ => true | _ => false end.
Definition is_zero (x : spec_float) : bool :=
  match x with S754_zero _ => true | _ => false end.
(** Sign bit clear, or a NaN. *)
Definition nonneg_or_nan (x : spec_float) : bool :=
  match x with
  | S754_nan | S754_zero false | S754_infinity false
  | S754_finite false _ _ => true
  | _ => false
  end.
(** A finite number with a clear sign bit: [+0.0] or positive. *)
Definition finite_nonneg (x : spec_float) : bool :=
  match x with
  | S754_zero false | S754_finite false _ _ => true
  | _ => false
  end.
(** Python's [int(x)] on a float: truncation towards zero
    ([None] stands for the exception raised on an infinity or a NaN). *)
Definition to_int (x : spec_float) : option Z :=
  match x with
  | S754_zero _ => Some 0
  | S754_finite s m e =>
      let a := match e with
               | Zneg _ => Z.shiftr (Zpos m) (- e)
               | _ => Z.shiftl (Zpos m) e
               end in
      Some (if s then - a else a)
  | _ => None
  end.
End F64.

(** ** Effects: printed messages, file reads and exceptions *)

Inductive event : Type :=
| Print (msg : string)
| FileRead (filename : string).

Inductive exn : Type :=
| IndexError | TypeError | ValueError | FileNotFoundError | GEOSException.

Inductive result (A : Type) : Type :=
| Ok (v : A)
| Raise (e : exn).
Arguments Ok {A} v.
Arguments Raise {A} e.

(** A computation yields the events it performed, in order, and either a
    value or the exception that escaped it. *)
Definition IO (A : Type) : Type := (list event * result A)%type.

Definition ret {A} (v : A) : IO A := ([], Ok v).
Definition raise {A} (e : exn) : IO A := ([], Raise e).
Definition print (msg : string) : IO unit := ([Print msg], Ok tt).

Definition bind {A B} (m : IO A) (k : A -> IO B) : IO B :=
  match m with
  | (t, Ok v) => let '(t', r) := k v in (t ++ t', r)
  | (t, Raise e) => (t, Raise e)
  end.

Definition exn_eqb (a b : exn) : bool :=
  match a, b with
  | IndexError, IndexError | TypeError, TypeError
  | ValueError, ValueError | FileNotFoundError, FileNotFoundError
  | GEOSException, GEOSException => true
  | _, _ => false
  end.

(** [try: body / except caught: handler]. *)
Definition try_except {A} (body : IO A) (caught : exn) (handler : IO A) : IO A :=
  match body with
  | (t, Raise e) =>
      if exn_eqb e caught then let '(t', r) := handler in (t ++ t', r)
      else (t, Raise e)
  | done => done
  end.

Declare Scope io_scope.
Delimit Scope io_scope with io.
Notation "x <- m ;; k" := (bind m (fun x => k))
  (at level 61, m at next level, right associativity) : io_scope.
Notation "m ;;; k" := (bind m (fun _ => k))
  (at level 61, right associativity) : io_scope.

Definition events {A} (m : IO A) : list event := fst m.
Definition outcome {A} (m : IO A) : result A := snd m.

Definition is_file_read (e : event) : bool :=
  match e with FileRead _ => true | Print _ => false end.

(** ** Python and NumPy primitives used by [get_snapshot] *)

(** [str(i)] for a Python integer. *)
Definition str (i : Z) : string := NilZero.string_of_int (Z.to_int i).

(** [l[idx]] on a Python list: a negative index counts from the end. *)
Definition getitem {A} (l : list A) (idx : Z) : IO A :=
  let n := Z.of_nat (List.length l) in
  let i := if idx <? 0 then idx + n else idx in
  if (i <? 0) || (n <=? i) then raise IndexError
  else match nth_error l (Z.to_nat i) with
       | Some x => ret x
       | None => raise IndexError
       end.

Definition ends_with_sep (s : string) : bool :=
  match String.get (String.length s - 1)%nat s with
  | Some c => Ascii.eqb c "/"
  | None => false
  end.

(** [os.path.join(a, b)] (POSIX). *)
Definition os_path_join (a b : string) : string :=
  if prefix "/" b then b
  else if (String.eqb a "" || ends_with_sep a)%bool then (a ++ b)%string
  else (a ++ "/" ++ b)%string.

(** A file system maps a path to the bytes of the file, when it exists. *)
Definition filesystem : Type := string -> option (list byte).

(** [np.fromfile(filename, dtype='>u1', count=count)]: at most [count] bytes,
    fewer when the file is shorter. *)
Definition np_fromfile (fs : filesystem) (filename : string) (count : nat)
  : IO (list byte) :=
  match fs filename with
  | Some contents => ([FileRead filename], Ok (firstn count contents))
  | None => ([FileRead filename], Raise FileNotFoundError)
  end.

(** [np.unpackbits(a, bitorder='little')]: bit 0 of each byte first. *)
Definition unpack_byte_little (b : byte) : list Z :=
  map (fun j => Z.b2z (N.testbit (Byte.to_N b) j)) [0; 1; 2; 3; 4; 5; 6; 7]%N.

Definition np_unpackbits_little (a : list byte) : list Z :=
  flat_map unpack_byte_little a.

(** Two's complement wrap-around of [np.int8]. *)
Definition wrap_int8 (z : Z) : Z := (z + 128) mod 256 - 128.
Definition astype_int8 (z : Z) : Z := wrap_int8 z.
Definition int8_mul (a b : Z) : Z := wrap_int8 (a * b).
Definition int8_add (a b : Z) : Z := wrap_int8 (a + b).

(** A returned array: [dtype=int8] or [dtype=float32]. *)
Inductive ndarray : Type :=
| Int8Array (a : list Z)
| Float32Array (a : list spec_float).

(** [np.mean] of a [float32] array, computed in the precision of the input:
    the [float32] sum of the elements divided by their number. *)
Definition np_sum_f32 (a : list spec_float) : spec_float :=
  fold_left F32.add a (S754_zero false).

Definition np_mean_f32 (a : list spec_float) : spec_float :=
  F32.div (np_sum_f32 a) (F32.of_Z (Z.of_nat (List.length a))).

(** ** The snapshot decoder *)

(** [int(4092000.0 * 12e-3 / 8)], evaluated in [float64]. *)
Definition bytes_per_snapshot : nat :=
  match F64.to_int
          (F64.div (F64.mul (F64.of_Z 4092000)
                            (F64.div (F64.of_Z 12) (F64.of_Z 1000)))
                   (F64.of_Z 8)) with
  | Some n => Z.to_nat n
  | None => O
  end.

(** Lines 203-212 of [get_snapshot]: bits, bipolar samples, optional
    subtraction of the mean. *)
Definition decode_signal (signal_bytes : list byte) (normalize : bool) : ndarray :=
  let signal := np_unpackbits_little signal_bytes in
  let signal := map (fun b => int8_add (int8_mul (-2) (astype_int8 b)) 1) signal in
  if normalize then
    let signal := map F32.of_Z signal in
    let mean := np_mean_f32 signal in
    Float32Array (map (fun x => F32.sub x mean) signal)
  else Int8Array signal.

(** The decoding step on the bytes available in the file: the fixed-count
    read followed by [decode_signal]. *)
Definition decode (buffer : list byte) (normalize : bool) : ndarray :=
  decode_signal (firstn bytes_per_snapshot buffer) normalize.

(** ** Planar geometry of the ground-truth track

    The track is a [shapely.geometry.LineString].  Its two methods used by
    [get_error], [project] and [interpolate], are Shapely's
    [line_locate_point] and [line_interpolate_point], which call the linear
    referencing of GEOS ([LengthIndexedLine]): [LengthIndexOfPoint] scans the
    segments for the one nearest to the point, [LengthLocationMap] walks
    along the line to a given length.  The definitions follow these
    functions, computation by computation; they are generic in the scalars,
    so that they are run on [float64], the arithmetic of the program, and
    can be compared with their meaning in exact arithmetic. *)

Class Scalar (T : Type) : Type := {
  s_zero : T;
  s_one : T;
  s_add : T -> T -> T;
  s_sub : T -> T -> T;
  s_mul : T -> T -> T;
  s_div : T -> T -> T;
  s_sqrt : T -> T;
  s_abs : T -> T;
  s_eqb : T -> T -> bool;
  s_leb : T -> T -> bool;
  s_ltb : T -> T -> bool;
  (** [x < DoubleInfinity] *)
  s_below_infinity : T -> bool
}.

Section LineString.
Context {T : Type} `{Scalar T}.

Definition coord : Type := (T * T)%type.

(** [CoordinateXY::operator==]. *)
Definition coord_eqb (a b : coord) : bool :=
  s_eqb (fst a) (fst b) && s_eqb (snd a) (snd b).

(** [p.distance(q)] of [CoordinateXY]. *)
Definition distance (p q : coord) : T :=
  let dx := s_sub (fst p) (fst q) in
  let dy := s_sub (snd p) (snd q) in
  s_sqrt (s_add (s_mul dx dx) (s_mul dy dy)).

(** Consecutive pairs of the coordinate sequence. *)
Fixpoint segments (l : list coord) : list (coord * coord) :=
  match l with
  | a :: (b :: _) as tl => (a, b) :: segments tl
  | _ => []
  end.

(** [Distance::pointToSegment(p, A, B)]. *)
Definition pointToSegment (p A B : coord) : T :=
  if coord_eqb A B then distance p A
  else
    let len2 := s_add (s_mul (s_sub (fst B) (fst A)) (s_sub (fst B) (fst A)))
                      (s_mul (s_sub (snd B) (snd A)) (s_sub (snd B) (snd A))) in
    let r := s_div (s_add (s_mul (s_sub (fst p) (fst A)) (s_sub (fst B) (fst A)))
                          (s_mul (s_sub (snd p) (snd A)) (s_sub (snd B) (snd A))))
                   len2 in
    if s_leb r s_zero then distance p A
    else if s_leb s_one r then distance p B
    else
      let s := s_div (s_sub (s_mul (s_sub (snd A) (snd p)) (s_sub (fst B) (fst A)))
                            (s_mul (s_sub (fst A) (fst p)) (s_sub (snd B) (snd A))))
                     len2 in
      s_mul (s_abs s) (s_sqrt len2).

(** [LineSegment::projectionFactor(p)] of the segment [p0 p1]. *)
Definition projectionFactor (p0 p1 p : coord) : T :=
  if coord_eqb p p0 then s_zero
  else if coord_eqb p p1 then s_one
  else
    let dx := s_sub (fst p1) (fst p0) in
    let dy := s_sub (snd p1) (snd p0) in
    let len2 := s_add (s_mul dx dx) (s_mul dy dy) in
    s_div (s_add (s_mul (s_sub (fst p) (fst p0)) dx)
                 (s_mul (s_sub (snd p) (snd p0)) dy))
          len2.

(** [LengthIndexOfPoint::segmentNearestMeasure]; the length of the segment
    is [p0.distance(p1)]. *)
Definition segmentNearestMeasure (p0 p1 inputPt : coord)
    (segmentStartMeasure : T) : T :=
  let projFactor := projectionFactor p0 p1 inputPt in
  if s_leb projFactor s_zero then segmentStartMeasure
  else if s_leb projFactor s_one
       then s_add segmentStartMeasure (s_mul projFactor (distance p0 p1))
       else s_add segmentStartMeasure (distance p0 p1).

(** The literal [-1.0]. *)
Definition minus_one : T := s_sub s_zero s_one.

(** [segDistance < minDistance], where [minDistance] starts at
    [DoubleInfinity] ([None]). *)
Definition below (segDistance : T) (minDistance : option T) : bool :=
  match minDistance with
  | None => s_below_infinity segDistance
  | Some d => s_ltb segDistance d
  end.

(** The loop of [LengthIndexOfPoint::indexOfFromStart] over the segments,
    with its local variables [minDistance] and [ptMeasure] as they are
    when it ends. *)
Fixpoint indexOfFromStart_loop (segs : list (coord * coord)) (inputPt : coord)
    (minIndex : T) (minDistance : option T) (ptMeasure segmentStartMeasure : T)
  : option T * T :=
  match segs with
  | [] => (minDistance, ptMeasure)
  | (p0, p1) :: rest =>
      let segDistance := pointToSegment inputPt p0 p1 in
      let segMeasureToPt :=
        segmentNearestMeasure p0 p1 inputPt segmentStartMeasure in
      let segmentStartMeasure' := s_add segmentStartMeasure (distance p0 p1) in
      if (below segDistance minDistance && s_ltb minIndex segMeasureToPt)%bool
      then indexOfFromStart_loop rest inputPt minIndex (Some segDistance)
             segMeasureToPt segmentStartMeasure'
      else indexOfFromStart_loop rest inputPt minIndex minDistance
             ptMeasure segmentStartMeasure'
  end.

(** [LengthIndexOfPoint::indexOfFromStart(inputPt, minIndex)]: it returns
    [ptMeasure]. *)
Definition indexOfFromStart (line : list coord) (inputPt : coord)
    (minIndex : T) : T :=
  snd (indexOfFromStart_loop (segments line) inputPt minIndex None minIndex
         s_zero).

(** [LengthIndexedLine::project], that is [indexOfFromStart(inputPt, -1.0)]. *)
Definition indexOf (line : list coord) (inputPt : coord) : T :=
  indexOfFromStart line inputPt minus_one.

(** [LineString.project(Point(p))]: Shapely raises [GEOSException] when
    GEOS returns [-1.0]. *)
Definition project (line : list coord) (p : coord) : IO T :=
  let m := indexOf line p in
  if s_eqb m minus_one then raise GEOSException else ret m.

(** [Length::ofLine]. *)
Definition line_length (line : list coord) : T :=
  fold_left (fun acc s => s_add acc (distance (snd s) (fst s)))
            (segments line) s_zero.

(** [LinearLocation::pointAlongSegmentByFraction]. *)
Definition point_along (p0 p1 : coord) (frac : T) : coord :=
  if s_leb frac s_zero then p0
  else if s_leb s_one frac then p1
  else (s_add (s_mul (s_sub (fst p1) (fst p0)) frac) (fst p0),
        s_add (s_mul (s_sub (snd p1) (snd p0)) frac) (snd p0)).

(** [LengthLocationMap::getLocationForward], with the coordinate of the
    location found: the walk along the line until the segment holding the
    length [d]; [total] is the length of the line before the current
    coordinate.  Past the end, the last coordinate. *)
Fixpoint interpolate_from (line : list coord) (d total : T) : option coord :=
  match line with
  | [] => None
  | a :: tl =>
      match tl with
      | [] => Some a
      | b :: _ =>
          let len := distance b a in
          if s_ltb d (s_add total len)
          then Some (point_along a b (s_div (s_sub d total) len))
          else interpolate_from tl d (s_add total len)
      end
  end.

(** [LineString.interpolate(d)], that is [LengthIndexedLine::extractPoint]:
    a negative length is measured backwards from the end; a length that is
    not positive gives the start. *)
Definition interpolate (line : list coord) (d : T) : option coord :=
  let d := if s_ltb d s_zero then s_add (line_length line) d else d in
  if s_leb d s_zero then hd_error line
  else interpolate_from line d s_zero.

(** [np.linalg.norm] of a vector of two components. *)
Definition norm2 (x y : T) : T := s_sqrt (s_add (s_mul x x) (s_mul y y)).

(** Lines 316-321 of [get_error]: the nearest point of the track, by
    [project] and [interpolate], and the norm of its difference with the
    test point. *)
Definition track_error (line : list coord) (p : coord) : IO T :=
  (m <- project line p ;;
   match interpolate line m with
   | Some q => ret (norm2 (s_sub (fst q) (fst p)) (s_sub (snd q) (snd p)))
   | None => raise IndexError
   end)%io.

(** *** The scan seen as a choice among candidates *)

(** The distance and the measure that the scan computes for each segment,
    in order. *)
Fixpoint candidates (segs : list (coord * coord)) (inputPt : coord)
    (segmentStartMeasure : T) : list (T * T) :=
  match segs with
  | [] => []
  | (p0, p1) :: rest =>
      (pointToSegment inputPt p0 p1,
       segmentNearestMeasure p0 p1 inputPt segmentStartMeasure)
      :: candidates rest inputPt (s_add segmentStartMeasure (distance p0 p1))
  end.

(** What the scan has kept after the candidates [seen]: nothing yet, no
    candidate with a measure above [minIndex] being below infinity; or a
    candidate of [seen] with a measure above [minIndex], that no such
    candidate of [seen] beats. *)
Definition kept (minIndex : T) (seen : list (T * T)) (state : option T * T)
    (ptMeasure0 : T) : Prop :=
  match fst state with
  | None =>
      snd state = ptMeasure0 /\
      forall c, In c seen -> s_ltb minIndex (snd c) = true ->
                s_below_infinity (fst c) = false
  | Some d =>
      In (d, snd state) seen /\
      s_below_infinity d = true /\
      s_ltb minIndex (snd state) = true /\
      forall c, In c seen -> s_ltb minIndex (snd c) = true ->
                s_ltb (fst c) d = false
  end.

(** *** The distance the specification describes *)

(** Parameter of the orthogonal projection of [p] on the line through
    [a] and [b] ([0] at [a], [1] at [b]). *)
Definition projection_parameter (p a b : coord) : T :=
  s_div (s_add (s_mul (s_sub (fst p) (fst a)) (s_sub (fst b) (fst a)))
               (s_mul (s_sub (snd p) (snd a)) (s_sub (snd b) (snd a))))
        (s_add (s_mul (s_sub (fst b) (fst a)) (s_sub (fst b) (fst a)))
               (s_mul (s_sub (snd b) (snd a)) (s_sub (snd b) (snd a)))).

(** The projection of [p] clamped to the segment [a b]. *)
Definition clamped_projection (p a b : coord) : coord :=
  if coord_eqb a b then a else point_along a b (projection_parameter p a b).

(** Minimum of [d] and the elements of [l]. *)
Fixpoint list_min (d : T) (l : list T) : T :=
  match l with
  | [] => d
  | x :: tl => list_min (if s_ltb x d then x else d) tl
  end.

(** What the specification asks of the track distance: the minimum, over
    the segments, of the distance from [p] to its projection clamped to
    the segment. *)
Definition nearest_distance_spec (line : list coord) (p : coord) : option T :=
  match map (fun s => distance p (clamped_projection p (fst s) (snd s)))
            (segments line) with
  | [] => None
  | d :: ds => Some (list_min d ds)
  end.
End LineString.

#[export] Instance float64_Scalar : Scalar spec_float := {|
  s_zero := S754_zero false;
  s_one := F64.of_Z 1;
  s_add := F64.add;
  s_sub := F64.sub;
  s_mul := F64.mul;
  s_div := F64.div;
  s_sqrt := F64.sqrt;
  s_abs := SFabs;
  s_eqb := SFeqb;
  s_leb := SFleb;
  s_ltb := SFltb;
  s_below_infinity := fun x => SFltb x F64.inf
|}.

(** Exact arithmetic, in which the meaning of the computation is stated:
    every real number is below infinity. *)
#[export] Instance R_Scalar : Scalar R := {|
  s_zero := 0%R;
  s_one := 1%R;
  s_add := Rplus;
  s_sub := Rminus;
  s_mul := Rmult;
  s_div := Rdiv;
  s_sqrt := sqrt;
  s_abs := Rabs;
  s_eqb := fun x y => if Req_dec_T x y then true else false;
  s_leb := fun x y => if Rle_dec x y then true else false;
  s_ltb := fun x y => if Rlt_dec x y then true else false;
  s_below_infinity := fun _ => true
|}.

(** ** Invariants relating [project] and [interpolate] on exact reals *)

(** [cur] is a suffix of [line] that starts at distance [start] along it: the
    walk from the start of [line] to any distance at least [start] goes through
    the walk from the start of [cur]. *)
Definition reaches (line cur : list (@coord R)) (start : R) : Prop :=
  forall m : R,
    (start <= m)%R -> interpolate_from line m 0%R = interpolate_from cur m start.

(** The distance [minDistance] found by the scan is attained at the point of
    [line] at the measure [ptMeasure]. *)
Definition attained (line : list (@coord R)) (p : @coord R)
    (minDistance : option R) (ptMeasure : R) : Prop :=
  match minDistance with
  | None => True
  | Some d =>
      (0 <= ptMeasure)%R /\
      exists q, interpolate_from line ptMeasure 0%R = Some q /\ distance p q = d
  end.

(** ** The dataset: ground truth and error *)

(** A ground-truth node, [{"latitude": ..., "longitude": ...}]. *)
Record GeodeticPoint : Type := {
  latitude : spec_float;
  longitude : spec_float
}.

(** [self._ground_truth]: [None], one location, or the nodes of a track. *)
Inductive ground_truth : Type :=
| NoGroundTruth
| StaticLocation (g : GeodeticPoint)
| TrackNodes (l : list GeodeticPoint).

Record Dataset : Type := {
  _directory : string;
  _filenames : option (list string);
  _ground_truth : ground_truth;
  _ref_location : option GeodeticPoint;
  _track : option (list (@coord spec_float))
}.

(** A discovered ground-truth file, after XML parsing: its ending and the
    polyline nodes read from it. *)
Record gt_file : Type := {
  file_ending : string;
  nodes : list GeodeticPoint
}.

(** State of the loop over the ground-truth files. *)
Record gt_state : Type := {
  st_ground_truth : ground_truth;
  st_ref_location : option GeodeticPoint;
  st_gt_enu : list (list (spec_float * spec_float * spec_float))
}.

(** [sg.LineString(coords)]: GEOS accepts no line of a single
    coordinate, and Shapely raises [GEOSException]. *)
Definition LineString (coords : list (@coord spec_float))
  : IO (list (@coord spec_float)) :=
  match coords with
  | [_] => raise GEOSException
  | _ => ret coords
  end.

Section WithGeodeticConversion.
(** [pymap3d.geodetic2enu(lat, lon, h, lat0, lon0, h0)], the conversion
    primitive supplied to the dataset. *)
Variable geodetic2enu :
  spec_float -> spec_float -> spec_float ->
  spec_float -> spec_float -> spec_float ->
  spec_float * spec_float * spec_float.

Local Open Scope io_scope.

(** Lines 137-142: the nodes of one file in ENU coordinates. *)
Definition to_enu (ground_truth : list GeodeticPoint) (ref : GeodeticPoint)
  : list (spec_float * spec_float * spec_float) :=
  map (fun g => geodetic2enu (latitude g) (longitude g) (S754_zero false)
                             (latitude ref) (longitude ref) (S754_zero false))
      ground_truth.

(** Lines 106-142: the loop over [gt_files]. *)
Fixpoint load_gt_files (gt_files : list gt_file) (st : gt_state) : IO gt_state :=
  match gt_files with
  | [] => ret st
  | f :: rest =>
      print ("Open ground truth file of type " ++ file_ending f ++ ".") ;;;
      ground_truth <-
        (if (String.eqb (file_ending f) "gpx" || String.eqb (file_ending f) "kml")%bool
         then ret (nodes f) else raise ValueError) ;;
      ref <- getitem ground_truth 0 ;;
      load_gt_files rest
        {| st_ground_truth := TrackNodes ground_truth;
           st_ref_location := Some ref;
           st_gt_enu := st_gt_enu st ++ [to_enu ground_truth ref] |}
  end.

(** [Dataset.__init__], from the parsed metadata and ground-truth files. *)
Definition Dataset_init (directory : string) (filenames : option (list string))
    (meta_location : option GeodeticPoint) (gt_files : list gt_file)
  : IO Dataset :=
  if (0 <? Z.of_nat (List.length gt_files)) then
    st <- load_gt_files gt_files
            {| st_ground_truth := NoGroundTruth;
               st_ref_location := None;
               st_gt_enu := [] |} ;;
    let gt_enu := List.concat (st_gt_enu st) in
    track <- LineString (map (fun p => (fst (fst p), snd (fst p))) gt_enu) ;;
    ret {| _directory := directory;
           _filenames := filenames;
           _ground_truth := st_ground_truth st;
           _ref_location := st_ref_location st;
           _track := Some track |}
  else
    gt <- match meta_location with
          | Some g => ret (Some g)
          | None =>
              print ("No ground truth file in " ++ directory ++ ".") ;;;
              print ("No ground truth location in "
                       ++ os_path_join directory "meta.json" ++ ".") ;;;
              ret None
          end ;;
    ret {| _directory := directory;
           _filenames := filenames;
           _ground_truth := match gt with
                            | Some g => StaticLocation g
                            | None => NoGroundTruth
                            end;
           _ref_location := gt;
           _track := None |}.

(** Lines 301-323 of [get_error]: the distance before the final check
    (the packages [pymap3d] and [shapely] are installed). *)
Definition horizontal_error (self : Dataset) (lat lon : spec_float)
  : IO spec_float :=
  ref <- match _ref_location self with
         | Some g => ret g
         | None => raise TypeError
         end ;;
  let '(err_east, err_north, err_height) :=
    geodetic2enu lat lon (S754_zero false)
                 (latitude ref) (longitude ref) (S754_zero false) in
  match _track self with
  | Some track => track_error track (err_east, err_north)
  | None => ret (norm2 err_east err_north)
  end.

(** [Dataset.get_error]. *)
Definition get_error (self : Dataset) (lat lon : spec_float) : IO spec_float :=
  err <- horizontal_error self lat lon ;;
  if F64.is_nan err then ret F64.inf else ret err.

(** What the specification asks of a track built from several files: one
    reference, the first node of the concatenated nodes, for all of them. *)
Definition shared_reference_track (gt_files : list gt_file)
  : option (GeodeticPoint * list (@coord spec_float)) :=
  match List.concat (map nodes gt_files) with
  | [] => None
  | (ref :: _) as all =>
      Some (ref, map (fun p => (fst (fst p), snd (fst p))) (to_enu all ref))
  end.
End WithGeodeticConversion.

(** [Dataset.get_size]. *)
Definition get_size (self : Dataset) : IO Z :=
  match _filenames self with
  | Some names => ret (Z.of_nat (List.length names))
  | None => raise TypeError
  end.

(** [Dataset.get_snapshot]; the optional value is [None] when the method
    returns [None]. *)
Definition get_snapshot (self : Dataset) (fs : filesystem) (idx : Z)
    (normalize : bool) : IO (option ndarray) :=
  (filename <-
     try_except
       (names <- match _filenames self with
                 | Some names => ret names
                 | None => raise TypeError
                 end ;;
        name <- getitem names idx ;;
        ret (Some (os_path_join (_directory self) name)))
       IndexError
       (size <- get_size self ;;
        print ("Snapshot index " ++ str idx ++ " out of range "
                 ++ str 0 ++ "-" ++ str (size - 1) ++ ".") ;;;
        ret None) ;;
   match filename with
   | None => ret None
   | Some filename =>
       signal_bytes <- np_fromfile fs filename bytes_per_snapshot ;;
       ret (Some (decode_signal signal_bytes normalize))
   end)%io.

(** A conversion primitive of unit scale (east and north are the plain
    differences of longitude and latitude), to run the definitions on
    concrete inputs. *)
Definition unit_enu (lat lon h lat0 lon0 h0 : spec_float)
  : spec_float * spec_float * spec_float :=
  (F64.sub lon lon0, F64.sub lat lat0, F64.sub h h0).

(** [len(l)] as a Python integer. *)
Definition len {A} (l : list A) : Z := Z.of_nat (List.length l).

(** ** Exact sums and the checks over all sample counts

    A decoded snapshot is determined, as far as its mean is concerned, by the
    number [k] of its samples equal to -1: the properties of the [float32]
    normalisation are checked by evaluation for every [k] up to one half of
    the samples, and follow for the other counts by exchanging the signs. *)

Definition Zsum (l : list Z) : Z := fold_right Z.add 0 l.
Definition Qsum (l : list Q) : Q := fold_right Qplus 0%Q l.
Definition count_neg (l : list Z) : Z := Z.of_nat (count_occ Z.eq_dec l (-1)).

(** Structural equality of two values. *)
Definition sf_eqb (a b : spec_float) : bool :=
  match a, b with
  | S754_zero s, S754_zero s' => Bool.eqb s s'
  | S754_infinity s, S754_infinity s' => Bool.eqb s s'
  | S754_nan, S754_nan => true
  | S754_finite s m e, S754_finite s' m' e' =>
      Bool.eqb s s' && Pos.eqb m m' && Z.eqb e e'
  | _, _ => false
  end.

(** [P] holds on the [2 ^ p] integers from [lo] on. *)
Fixpoint forall_range (p : nat) (lo : Z) (P : Z -> bool) : bool :=
  match p with
  | O => P lo
  | S p' => forall_range p' lo P && forall_range p' (lo + 2 ^ Z.of_nat p') P
  end.

(** For the integer components [a] and [b], the [float64] norm lies between
    the integer square root of [a * a + b * b] and its successor, and is
    that root when [a * a + b * b] is a square. *)
Definition norm_check (a b : Z) : bool :=
  let r := norm2 (F64.of_Z a) (F64.of_Z b) in
  let c := Z.sqrt (a * a + b * b) in
  SFleb (F64.of_Z c) r && SFltb r (F64.of_Z (c + 1)) &&
  (if c * c =? a * a + b * b then sf_eqb r (F64.of_Z c) else true).

Definition f32_one : spec_float := Eval vm_compute in F32.of_Z 1.
Definition f32_minus_one : spec_float := Eval vm_compute in F32.of_Z (-1).
Definition f32_count : spec_float := Eval vm_compute in F32.of_Z 49104.

(** The [float32] mean of 49104 samples of which [k] are -1. *)
Definition f32_mean_of_count (k : Z) : spec_float :=
  F32.div (F32.of_Z (49104 - 2 * k)) f32_count.

(** The value of [x] in units of [2^-47], for an [x] that is a multiple of
    that unit. *)
Definition units47 (x : spec_float) : Z :=
  match x with
  | S754_finite s m e => cond_Zopp s (Z.shiftl (Zpos m) (e + 47))
  | _ => 0
  end.

Definition representable47 (x : spec_float) : bool :=
  match x with
  | S754_zero _ => true
  | S754_finite _ _ e => -47 <=? e
  | _ => false
  end.

(** The mean [m] and the normalised values [rp] of a sample +1 and [rm] of
    a sample -1, for the count [k]: they are finite, the mean is within
    [2^-25] of the exact mean, a normalised value plus the mean is within
    [2^-24] of the sample, and the exact mean of the normalised samples is
    within [1e-6] of zero. *)
Definition normalized_within (k : Z) (m rp rm : spec_float) : Prop :=
  F32.is_finite m = true /\
  F32.is_finite rp = true /\
  F32.is_finite rm = true /\
  (Qabs (F32.to_Q m - inject_Z (49104 - 2 * k) / inject_Z 49104)
   <= 1 # 33554432)%Q /\
  (Qabs (F32.to_Q rp + F32.to_Q m - inject_Z 1) <= 1 # 16777216)%Q /\
  (Qabs (F32.to_Q rm + F32.to_Q m - inject_Z (-1)) <= 1 # 16777216)%Q /\
  (Qabs ((inject_Z (49104 - k) * F32.to_Q rp + inject_Z k * F32.to_Q rm)
         / inject_Z 49104) <= 1 # 1000000)%Q.

(** The same bounds on integers, in units of [2^-47]
    ([2^47 = 140737488355328]). *)
Definition normalization_check (k : Z) : bool :=
  let m := f32_mean_of_count k in
  let rp := F32.sub f32_one m in
  let rm := F32.sub f32_minus_one m in
  let um := units47 m in
  let up := units47 rp in
  let un := units47 rm in
  representable47 m && representable47 rp && representable47 rm &&
  (Z.abs (um * 49104 - (49104 - 2 * k) * 140737488355328) <=? 205957103616) &&
  (Z.abs (up + um - 140737488355328) <=? 8388608) &&
  (Z.abs (un + um + 140737488355328) <=? 8388608) &&
  (Z.abs ((49104 - k) * up + k * un) * 1000000 <=? 6910773628200026112).

Definition finite_nonzero (x : spec_float) : bool :=
  match x with S754_finite _ _ _ => true | _ => false end.

(** Adding a sample to the partial sum [j] is exact in [float32]. *)
Definition partial_sum_check (j : Z) : bool :=
  let fj := F32.of_Z j in
  let fj1 := F32.of_Z (j + 1) in
  sf_eqb (F32.add fj f32_one) fj1 &&
  sf_eqb (F32.add fj f32_minus_one) (F32.of_Z (j - 1)) &&
  finite_nonzero fj1.

(** [a] is the opposite of [b], up to the sign of a zero. *)
Definition mirror (a b : spec_float) : Prop :=
  a = SFopp b \/ (a = S754_zero false /\ b = S754_zero false).

(** ** Concrete inputs on which the definitions are run *)

Definition zero_buffer : list byte := repeat x00 (Z.to_nat 6138).

Definition one_snapshot : Dataset := {|
  _directory := "data";
  _filenames := Some ["snapshot_0.bin"%string];
  _ground_truth := NoGroundTruth;
  _ref_location := None;
  _track := None
|}.

Definition one_snapshot_fs (buffer : list byte) : filesystem :=
  fun filename =>
    if String.eqb filename "data/snapshot_0.bin" then Some buffer else None.

Definition node (lat lon : Z) : GeodeticPoint :=
  {| latitude := F64.of_Z lat; longitude := F64.of_Z lon |}.

Definition two_gt_files : list gt_file :=
  [ {| file_ending := "gpx"; nodes := [node 0 0; node 0 1] |};
    {| file_ending := "gpx"; nodes := [node 1 0; node 1 1] |} ].

Definition static_dataset : Dataset := {|
  _directory := "data";
  _filenames := Some ["snapshot_0.bin"%string];
  _ground_truth := StaticLocation (node 51 7);
  _ref_location := Some (node 51 7);
  _track := None
|}.

Definition straight_track : Dataset := {|
  _directory := "data";
  _filenames := Some ["snapshot_0.bin"%string];
  _ground_truth := TrackNodes [node 0 0; node 0 100];
  _ref_location := Some (node 0 0);
  _track := Some [(F64.of_Z 0, F64.of_Z 0); (F64.of_Z 100, F64.of_Z 0)]
|}.

(** The track of the examples, from local (0, 0) to (100, 0). *)
Definition straight_line : list (@coord spec_float) :=
  [(F64.of_Z 0, F64.of_Z 0); (F64.of_Z 100, F64.of_Z 0)].

(** A track with a corner, from local (0, 0) by (100, 0) to (100, 100). *)
Definition corner_line : list (@coord spec_float) :=
  [(F64.of_Z 0, F64.of_Z 0); (F64.of_Z 100, F64.of_Z 0);
   (F64.of_Z 100, F64.of_Z 100)].

(** For the test point of integer coordinates [(x, y)], the error computed
    for the track [line] is a number, and it is the minimum over the
    segments computed in [float64]. *)
Definition track_check (line : list (@coord spec_float)) (x y : Z) : bool :=
  match track_error line (F64.of_Z x, F64.of_Z y),
        nearest_distance_spec line (F64.of_Z x, F64.of_Z y) with
  | (_, Ok e), Some d => sf_eqb e d && negb (F64.is_nan e)
  | _, _ => false
  end.

(** * Properties of the snapshot decoder *)

Lemma bytes_per_snapshot_eq : bytes_per_snapshot = Z.to_nat 6138.
Proof. vm_compute. reflexivity. Qed.

Lemma length_unpack_byte_little (b : byte) :
  List.length (unpack_byte_little b) = 8%nat.
Proof. reflexivity. Qed.

Lemma length_np_unpackbits_little (a : list byte) :
  List.length (np_unpackbits_little a) = (8 * List.length a)%nat.
Proof.
  induction a as [|b a IH]; [reflexivity|].
  unfold np_unpackbits_little in *. cbn [flat_map].
  rewrite length_app, IH, length_unpack_byte_little. cbn [List.length]. lia.
Qed.

(** The [int8] arithmetic of line 207 never wraps on a bit. *)
Lemma bipolar_of_bit (b : bool) :
  int8_add (int8_mul (-2) (astype_int8 (Z.b2z b))) 1 = -2 * Z.b2z b + 1.
Proof. destruct b; reflexivity. Qed.

Lemma unpackbits_are_bits (a : list byte) :
  Forall (fun z => exists b : bool, z = Z.b2z b) (np_unpackbits_little a).
Proof.
  unfold np_unpackbits_little. apply Forall_flat_map.
  apply Forall_forall. intros b _. unfold unpack_byte_little.
  apply Forall_map. apply Forall_forall. intros j _. eauto.
Qed.

(** Sample [8 * i + j] of the bit stream is bit [j] of byte [i]. *)
Lemma nth_error_np_unpackbits_little (a : list byte) (i j : nat) (b : byte) :
  nth_error a i = Some b -> (j < 8)%nat ->
  nth_error (np_unpackbits_little a) (8 * i + j)
  = Some (Z.b2z (N.testbit (Byte.to_N b) (N.of_nat j))).
Proof.
  revert i. induction a as [|x a IH]; intros i Hi Hj.
  - destruct i; discriminate.
  - unfold np_unpackbits_little in *. cbn [flat_map]. destruct i as [|i].
    + injection Hi as ->. rewrite nth_error_app1
        by (rewrite length_unpack_byte_little; lia).
      replace (8 * 0 + j)%nat with j by lia.
      do 8 (destruct j as [|j]; [reflexivity|]). lia.
    + rewrite nth_error_app2 by (rewrite length_unpack_byte_little; lia).
      rewrite length_unpack_byte_little.
      replace (8 * S i + j - 8)%nat with (8 * i + j)%nat by lia.
      now apply IH.
Qed.

Lemma decode_signal_raw (signal_bytes : list byte) :
  decode_signal signal_bytes false
  = Int8Array (map (fun b => -2 * b + 1) (np_unpackbits_little signal_bytes)).
Proof.
  unfold decode_signal. f_equal. apply map_ext_Forall.
  eapply Forall_impl; [|apply unpackbits_are_bits].
  intros z [b ->]. apply bipolar_of_bit.
Qed.

Lemma decode_raw (buffer : list byte) :
  decode buffer false
  = Int8Array (map (fun b => -2 * b + 1)
                   (np_unpackbits_little (firstn (Z.to_nat 6138) buffer))).
Proof. unfold decode. rewrite bytes_per_snapshot_eq. apply decode_signal_raw. Qed.

Lemma bipolar_samples (a : list byte) :
  Forall (fun s => s = -1 \/ s = 1)
         (map (fun b => -2 * b + 1) (np_unpackbits_little a)).
Proof.
  apply Forall_map. eapply Forall_impl; [|apply unpackbits_are_bits].
  intros z [[] ->]; cbn; auto.
Qed.

Lemma np_unpackbits_little_zeros (n : nat) :
  np_unpackbits_little (repeat x00 n) = repeat 0 (8 * n).
Proof.
  induction n as [|n IH]; [reflexivity|].
  replace (8 * S n)%nat with (8 + 8 * n)%nat by lia.
  rewrite repeat_app, <- IH. reflexivity.
Qed.

(** * Properties of [getitem] and [get_snapshot] *)

Ltac decide_index :=
  unfold getitem; cbv zeta;
  repeat match goal with
    | |- context [?a <? ?b] => destruct (Z.ltb_spec a b); try lia
    | |- context [?a <=? ?b] => destruct (Z.leb_spec a b); try lia
    end;
  cbn [orb].

Lemma getitem_out_of_range {A} (l : list A) (idx : Z) :
  idx < - Z.of_nat (List.length l) \/ Z.of_nat (List.length l) <= idx ->
  getitem l idx = raise IndexError.
Proof. intros Hidx. decide_index; reflexivity. Qed.

Lemma getitem_in_range {A} (l : list A) (i : nat) (x : A) :
  nth_error l i = Some x -> getitem l (Z.of_nat i) = ret x.
Proof.
  intros Hx. assert (Hlt : (i < List.length l)%nat).
  { apply nth_error_Some. congruence. }
  decide_index. now rewrite Nat2Z.id, Hx.
Qed.

Lemma getitem_negative {A} (l : list A) (idx : Z) :
  - Z.of_nat (List.length l) <= idx < 0 ->
  getitem l idx = getitem l (idx + Z.of_nat (List.length l)).
Proof. intros Hidx. decide_index; reflexivity. Qed.

(** A call that resolves a file name reads that file and decodes it. *)
Lemma get_snapshot_resolved (self : Dataset) (fs : filesystem) (idx : Z)
    (normalize : bool) (names : list string) (name : string) :
  _filenames self = Some names ->
  getitem names idx = ret name ->
  get_snapshot self fs idx normalize
  = ([FileRead (os_path_join (_directory self) name)],
     match fs (os_path_join (_directory self) name) with
     | Some buffer => Ok (Some (decode buffer normalize))
     | None => Raise FileNotFoundError
     end).
Proof.
  intros Hnames Hname. unfold get_snapshot. rewrite Hnames.
  cbn [ret bind]. rewrite Hname. cbn [ret bind try_except app].
  unfold np_fromfile, decode.
  destruct (fs (os_path_join (_directory self) name)); reflexivity.
Qed.

(** A call whose index raises [IndexError] prints and returns [None]. *)
Lemma get_snapshot_index_error (self : Dataset) (fs : filesystem) (idx : Z)
    (normalize : bool) (names : list string) :
  _filenames self = Some names ->
  getitem names idx = raise IndexError ->
  get_snapshot self fs idx normalize
  = ([Print ("Snapshot index " ++ str idx ++ " out of range 0-"
               ++ str (Z.of_nat (List.length names) - 1) ++ ".")],
     Ok None).
Proof.
  intros Hnames Hraise. unfold get_snapshot, get_size. rewrite Hnames.
  cbn [ret bind]. rewrite Hraise. reflexivity.
Qed.

Lemma len_decode_raw (buffer : list byte) :
  len (map (fun b => -2 * b + 1)
           (np_unpackbits_little (firstn (Z.to_nat 6138) buffer)))
  = 8 * Z.min 6138 (len buffer).
Proof.
  unfold len. rewrite length_map, length_np_unpackbits_little, length_firstn.
  lia.
Qed.

(** * The claims on [get_snapshot] *)

(** C3.  For every buffer of 6138 bytes, the decoding without normalisation
    returns an [int8] array (no floating point) of exactly 49104 samples, each
    of them -1 or +1; and the result is a function of the buffer alone: every
    call of [get_snapshot] that reads this buffer, whatever the dataset, the
    file system and the index, returns that same array. *)
Theorem decode_raw_bipolar (buffer : list byte) :
  len buffer = 6138 ->
  exists a : list Z,
    decode buffer false = Int8Array a /\
    len a = 49104 /\
    Forall (fun s => s = -1 \/ s = 1) a /\
    forall (self : Dataset) (fs : filesystem) (idx : Z) names name,
      _filenames self = Some names ->
      getitem names idx = ret name ->
      fs (os_path_join (_directory self) name) = Some buffer ->
      outcome (get_snapshot self fs idx false) = Ok (Some (Int8Array a)).
Proof.
  intros Hlen. eexists. split; [apply decode_raw|]. split; [|split].
  - rewrite len_decode_raw. lia.
  - apply bipolar_samples.
  - intros self fs idx names name Hnames Hname Hfile.
    rewrite (get_snapshot_resolved self fs idx false names name Hnames Hname).
    cbn [outcome snd]. rewrite Hfile. now rewrite decode_raw.
Qed.

Lemma decode_raw_bipolar_witness :
  len zero_buffer = 6138 /\
  exists a : list Z,
    decode zero_buffer false = Int8Array a /\
    len a = 49104 /\
    Forall (fun s => s = -1 \/ s = 1) a /\
    forall (self : Dataset) (fs : filesystem) (idx : Z) names name,
      _filenames self = Some names ->
      getitem names idx = ret name ->
      fs (os_path_join (_directory self) name) = Some zero_buffer ->
      outcome (get_snapshot self fs idx false) = Ok (Some (Int8Array a)).
Proof.
  assert (H : len zero_buffer = 6138).
  { unfold len, zero_buffer. rewrite repeat_length. lia. }
  split; [exact H | exact (decode_raw_bipolar zero_buffer H)].
Defined.

(** C2.  The bits of each byte are emitted least significant first and a bit
    [b] becomes the sample [-2 b + 1]: sample [8 i + j] is obtained from bit
    [j] of byte [i]; the buffer made of the byte 0x01 followed by zero bytes
    decodes to -1 followed by +1 only (in particular the 7 other samples of
    the first byte are +1). *)
Theorem decode_bit_order :
  (forall (buffer : list byte) (i j : nat) (b : byte),
      nth_error buffer i = Some b -> (Z.of_nat i < 6138) -> (j < 8)%nat ->
      exists a : list Z,
        decode buffer false = Int8Array a /\
        nth_error a (8 * i + j)
        = Some (-2 * Z.b2z (N.testbit (Byte.to_N b) (N.of_nat j)) + 1)) /\
  decode (x01 :: repeat x00 (Z.to_nat 6137)) false
  = Int8Array (-1 :: repeat 1 (Z.to_nat 49103)).
Proof.
  split.
  - intros buffer i j b Hb Hi Hj. eexists. split; [apply decode_raw|].
    rewrite nth_error_map.
    rewrite (nth_error_np_unpackbits_little _ i j b); [reflexivity| |exact Hj].
    rewrite nth_error_firstn.
    destruct (Nat.ltb_spec i (Z.to_nat 6138)); [exact Hb|lia].
  - rewrite decode_raw.
    replace (Z.to_nat 6138) with (S (Z.to_nat 6137)) by lia.
    cbn [firstn]. rewrite firstn_all2 by (rewrite repeat_length; lia).
    change (np_unpackbits_little (x01 :: repeat x00 (Z.to_nat 6137)))
      with (unpack_byte_little x01
              ++ np_unpackbits_little (repeat x00 (Z.to_nat 6137))).
    rewrite np_unpackbits_little_zeros, map_app, map_repeat.
    replace (Z.to_nat 49103) with (7 + 8 * Z.to_nat 6137)%nat by lia.
    rewrite repeat_app. reflexivity.
Qed.

Lemma decode_bit_order_witness :
  exists a : list Z,
    decode [x05; x80] false = Int8Array a /\
    nth_error a (8 * 1 + 7)
    = Some (-2 * Z.b2z (N.testbit (Byte.to_N x80) (N.of_nat 7)) + 1).
Proof.
  apply (proj1 decode_bit_order [x05; x80] 1%nat 7%nat x80);
    [reflexivity | reflexivity | lia].
Defined.

Lemma decode_normalized_length (signal_bytes : list byte) :
  exists a : list spec_float,
    decode_signal signal_bytes true = Float32Array a /\
    len a = 8 * len signal_bytes.
Proof.
  unfold decode_signal. eexists. split; [reflexivity|].
  unfold len. rewrite !length_map, length_np_unpackbits_little. lia.
Qed.

(** What the code does with a short file.  A buffer of [n < 6138] bytes is
    not rejected:
    the decoding returns the [8 n] samples of the bytes that are there, fewer
    than 49104 and without padding, as an [int8] array or, normalised, as a
    [float32] array; a call of [get_snapshot] that reads such a file returns
    that array and raises nothing. *)
Theorem decode_short_buffer (buffer : list byte) (normalize : bool) :
  len buffer < 6138 ->
  decode buffer false
  = Int8Array (map (fun b => -2 * b + 1) (np_unpackbits_little buffer)) /\
  len (map (fun b => -2 * b + 1) (np_unpackbits_little buffer))
  = 8 * len buffer /\
  (exists a : list spec_float,
      decode buffer true = Float32Array a /\ len a = 8 * len buffer) /\
  forall (self : Dataset) (fs : filesystem) (idx : Z) names name,
    _filenames self = Some names ->
    getitem names idx = ret name ->
    fs (os_path_join (_directory self) name) = Some buffer ->
    outcome (get_snapshot self fs idx normalize)
    = Ok (Some (decode buffer normalize)).
Proof.
  intros Hlen.
  assert (Hall : firstn (Z.to_nat 6138) buffer = buffer).
  { apply firstn_all2. unfold len in Hlen. lia. }
  split; [|split; [|split]].
  - now rewrite decode_raw, Hall.
  - unfold len in *. rewrite length_map, length_np_unpackbits_little. lia.
  - unfold decode. rewrite bytes_per_snapshot_eq, Hall.
    apply decode_normalized_length.
  - intros self fs idx names name Hnames Hname Hfile.
    rewrite (get_snapshot_resolved self fs idx normalize names name
               Hnames Hname).
    cbn [outcome snd]. now rewrite Hfile.
Qed.

Lemma decode_short_buffer_witness :
  len [x01] < 6138 /\
  decode [x01] false
  = Int8Array (map (fun b => -2 * b + 1) (np_unpackbits_little [x01])) /\
  len (map (fun b => -2 * b + 1) (np_unpackbits_little [x01])) = 8 * len [x01].
Proof.
  split; [reflexivity|].
  destruct (decode_short_buffer [x01] false) as (Hraw & Hlen & _);
    [reflexivity|].
  split; [exact Hraw | exact Hlen].
Defined.

(** C1.  The code breaks the claim, and the docstring of [get_snapshot]
    (lines 184-187, shape (49104,)): a file of one byte is decoded to 8
    samples, and no exception is raised. *)
Lemma truncated_buffer_is_decoded :
  len [x01] < 6138 /\
  get_snapshot one_snapshot (one_snapshot_fs [x01]) 0 false
  = ([FileRead "data/snapshot_0.bin"],
     Ok (Some (Int8Array [-1; 1; 1; 1; 1; 1; 1; 1]))).
Proof. split; [reflexivity | vm_compute; reflexivity]. Qed.

(** C7, as the code has it.  An index [idx >= N] or [idx < -N], for [N] file
    names, is reported: one message is printed, [None] is returned, nothing
    is raised and no file is read; so it is for [idx = N]. *)
Theorem get_snapshot_out_of_range (self : Dataset) (fs : filesystem)
    (idx : Z) (normalize : bool) (names : list string) :
  _filenames self = Some names ->
  idx < - len names \/ len names <= idx ->
  get_snapshot self fs idx normalize
  = ([Print ("Snapshot index " ++ str idx ++ " out of range 0-"
               ++ str (len names - 1) ++ ".")],
     Ok None) /\
  filter is_file_read (events (get_snapshot self fs idx normalize)) = [] /\
  get_snapshot self fs (len names) normalize
  = ([Print ("Snapshot index " ++ str (len names) ++ " out of range 0-"
               ++ str (len names - 1) ++ ".")],
     Ok None).
Proof.
  intros Hnames Hidx.
  assert (Hany : forall i, i < - len names \/ len names <= i ->
            get_snapshot self fs i normalize
            = ([Print ("Snapshot index " ++ str i ++ " out of range 0-"
                         ++ str (len names - 1) ++ ".")],
               Ok None)).
  { intros i Hi. apply get_snapshot_index_error; [exact Hnames|].
    now apply getitem_out_of_range. }
  split; [|split].
  - now apply Hany.
  - now rewrite Hany.
  - apply Hany. lia.
Qed.

Lemma get_snapshot_out_of_range_witness :
  get_snapshot one_snapshot (one_snapshot_fs zero_buffer) 1 false
  = ([Print "Snapshot index 1 out of range 0-0."], Ok None).
Proof.
  refine (proj1 (get_snapshot_out_of_range one_snapshot
                   (one_snapshot_fs zero_buffer) 1 false
                   ["snapshot_0.bin"%string] eq_refl _)).
  right. unfold len. cbn. lia.
Defined.

(** C7 as stated fails: -1 is outside [0, 1), yet for a dataset of one
    snapshot it is not reported; the file is read and decoded. *)
Lemma negative_index_reads_file :
  ~ (0 <= -1 < 1) /\
  get_size one_snapshot = ret 1 /\
  get_snapshot one_snapshot (one_snapshot_fs [x01]) (-1) false
  = ([FileRead "data/snapshot_0.bin"],
     Ok (Some (Int8Array [-1; 1; 1; 1; 1; 1; 1; 1]))).
Proof.
  split; [lia|]. split; [reflexivity | vm_compute; reflexivity].
Qed.

(** C10.  In a dataset of [N >= 1] snapshots, index -1 is Python's negative
    index: the call behaves as the call with index [N - 1]; it prints
    nothing, reads the file of the last name and returns its decoding. *)
Theorem get_snapshot_minus_one (self : Dataset) (fs : filesystem)
    (normalize : bool) (names : list string) :
  _filenames self = Some names ->
  1 <= len names ->
  get_snapshot self fs (-1) normalize
  = get_snapshot self fs (len names - 1) normalize /\
  exists name : string,
    nth_error names (List.length names - 1) = Some name /\
    get_snapshot self fs (-1) normalize
    = ([FileRead (os_path_join (_directory self) name)],
       match fs (os_path_join (_directory self) name) with
       | Some buffer => Ok (Some (decode buffer normalize))
       | None => Raise FileNotFoundError
       end).
Proof.
  intros Hnames Hlen. unfold len in *.
  destruct (nth_error names (List.length names - 1)) as [name|] eqn:Hname.
  2:{ apply nth_error_None in Hname. lia. }
  assert (Hlast : getitem names (Z.of_nat (List.length names) - 1) = ret name).
  { replace (Z.of_nat (List.length names) - 1)
      with (Z.of_nat (List.length names - 1)) by lia.
    now apply getitem_in_range. }
  assert (Hneg : getitem names (-1) = ret name).
  { rewrite getitem_negative by lia.
    now replace (-1 + Z.of_nat (List.length names))
      with (Z.of_nat (List.length names) - 1) by lia. }
  rewrite (get_snapshot_resolved self fs (-1) normalize names name
             Hnames Hneg).
  rewrite (get_snapshot_resolved self fs _ normalize names name Hnames Hlast).
  split; [reflexivity|]. exists name. split; reflexivity.
Qed.

Lemma get_snapshot_minus_one_witness :
  get_snapshot one_snapshot (one_snapshot_fs zero_buffer) (-1) true
  = get_snapshot one_snapshot (one_snapshot_fs zero_buffer)
      (len ["snapshot_0.bin"%string] - 1) true.
Proof.
  refine (proj1 (get_snapshot_minus_one one_snapshot
                   (one_snapshot_fs zero_buffer) true
                   ["snapshot_0.bin"%string] eq_refl _)).
  unfold len. cbn. lia.
Defined.

(** * The ground truth *)

(** What [__init__] builds from two files of two nodes each: every file is
    converted with its own first node as reference, and the stored reference
    and nodes are those of the last file. *)
Lemma Dataset_init_two_files
    (geodetic2enu : spec_float -> spec_float -> spec_float ->
                    spec_float -> spec_float -> spec_float ->
                    spec_float * spec_float * spec_float)
    (directory : string) (filenames : option (list string))
    (meta : option GeodeticPoint) (a b c d : GeodeticPoint) :
  let enu g ref :=
    let p := geodetic2enu (latitude g) (longitude g) (S754_zero false)
                          (latitude ref) (longitude ref) (S754_zero false) in
    (fst (fst p), snd (fst p)) in
  outcome (Dataset_init geodetic2enu directory filenames meta
             [ {| file_ending := "gpx"; nodes := [a; b] |};
               {| file_ending := "gpx"; nodes := [c; d] |} ])
  = Ok {| _directory := directory;
          _filenames := filenames;
          _ground_truth := TrackNodes [c; d];
          _ref_location := Some c;
          _track := Some [enu a a; enu b a; enu c c; enu d c] |}.
Proof. reflexivity. Qed.

(** C5 fails on the code.  For two ground-truth files with the nodes
    (0,0), (0,1) and (1,0), (1,1), the reference kept by [__init__] is the
    first node of the second file, not the first node of the concatenated
    sequence, and the nodes of the second file are converted with that second
    reference: the track differs from the one with a single shared
    reference. *)
Theorem Dataset_init_reference_per_file :
  exists (self : Dataset) (track : list (@coord spec_float)),
    outcome (Dataset_init unit_enu "data" None None two_gt_files) = Ok self /\
    _ref_location self = Some (node 1 0) /\
    _track self = Some track /\
    shared_reference_track unit_enu two_gt_files
    = Some (node 0 0,
            [(F64.of_Z 0, F64.of_Z 0); (F64.of_Z 1, F64.of_Z 0);
             (F64.of_Z 0, F64.of_Z 1); (F64.of_Z 1, F64.of_Z 1)]) /\
    track = [(F64.of_Z 0, F64.of_Z 0); (F64.of_Z 1, F64.of_Z 0);
             (F64.of_Z 0, F64.of_Z 0); (F64.of_Z 1, F64.of_Z 0)] /\
    shared_reference_track unit_enu two_gt_files
    <> Some (node 1 0, track).
Proof.
  eexists. eexists. split; [reflexivity|].
  split; [reflexivity|]. split; [reflexivity|]. split; [reflexivity|].
  split; [reflexivity|]. intros Heq. vm_compute in Heq. discriminate Heq.
Qed.

(** * The normalised decoding *)

Lemma forall_range_spec (P : Z -> bool) :
  forall (p : nat) (lo : Z),
    forall_range p lo P = true ->
    forall k, lo <= k < lo + 2 ^ Z.of_nat p -> P k = true.
Proof.
  induction p as [|p IH]; intros lo Hall k Hk.
  - cbn in Hk. replace k with lo by lia. exact Hall.
  - cbn [forall_range] in Hall. apply andb_prop in Hall as [Hlow Hhigh].
    rewrite Nat2Z.inj_succ, Z.pow_succ_r in Hk by lia.
    destruct (Z_lt_ge_dec k (lo + 2 ^ Z.of_nat p)).
    + apply (IH lo Hlow). lia.
    + apply (IH _ Hhigh). lia.
Qed.

Lemma sf_eqb_eq (a b : spec_float) : sf_eqb a b = true -> a = b.
Proof.
  destruct a as [s|s| |s m e], b as [s'|s'| |s' m' e']; cbn; try discriminate.
  - intros H. apply eqb_prop in H. now subst.
  - intros H. apply eqb_prop in H. now subst.
  - reflexivity.
  - intros H. apply andb_prop in H as [H He]. apply andb_prop in H as [Hs Hm].
    apply eqb_prop in Hs. apply Pos.eqb_eq in Hm. apply Z.eqb_eq in He.
    now subst.
Qed.

(** ** Exchange of the signs *)

Section Opposite.
Variables prec emax : Z.

Lemma binary_round_aux_opp (s : bool) (m e : Z) (l : location) :
  binary_round_aux prec emax (negb s) m e l
  = SFopp (binary_round_aux prec emax s m e l).
Proof.
  unfold binary_round_aux.
  destruct (shr_fexp prec emax m e l) as [mrs e'].
  destruct (shr_fexp prec emax _ e' loc_Exact) as [mrs' e''].
  destruct (shr_m mrs'); [reflexivity| |reflexivity].
  destruct (Z.leb e'' (emax - prec)); reflexivity.
Qed.

Lemma binary_round_opp (s : bool) (m : positive) (e : Z) :
  binary_round prec emax (negb s) m e = SFopp (binary_round prec emax s m e).
Proof.
  unfold binary_round. destruct (shl_align _ _ _) as [mz ez].
  apply binary_round_aux_opp.
Qed.

Lemma binary_normalize_opp (z e : Z) :
  z <> 0 ->
  binary_normalize prec emax (- z) e false
  = SFopp (binary_normalize prec emax z e false).
Proof.
  destruct z as [|p|p]; [contradiction| |]; intros _; cbn [Z.opp binary_normalize].
  - apply (binary_round_opp false).
  - rewrite (binary_round_opp true). now destruct (binary_round prec emax true p e).
Qed.

Lemma binary_normalize_mirror (z e : Z) :
  mirror (binary_normalize prec emax (- z) e false)
         (binary_normalize prec emax z e false).
Proof.
  destruct (Z.eq_dec z 0) as [->|Hz].
  - right. split; reflexivity.
  - left. now apply binary_normalize_opp.
Qed.

Lemma SFdiv_opp (x y : spec_float) :
  SFdiv prec emax (SFopp x) y = SFopp (SFdiv prec emax x y).
Proof.
  destruct x as [sx|sx| |sx mx ex], y as [sy|sy| |sy my ey];
    cbn [SFopp SFdiv]; rewrite <- ?negb_xorb_l; try reflexivity.
  destruct (SFdiv_core_binary prec emax (Z.pos mx) ex (Z.pos my) ey)
    as [[mz ez] lz].
  apply binary_round_aux_opp.
Qed.

Lemma cond_Zopp_negb (s : bool) (z : Z) : cond_Zopp (negb s) z = - cond_Zopp s z.
Proof. destruct s; cbn; lia. Qed.

Lemma SFsub_mirror (x y : spec_float) :
  mirror (SFsub prec emax (SFopp x) (SFopp y)) (SFsub prec emax x y).
Proof.
  destruct x as [[]|[]| |sx mx ex], y as [[]|[]| |sy my ey];
    cbn [SFopp SFsub negb]; try (left; reflexivity);
    try (right; split; reflexivity);
    try (left; cbn [SFopp]; now rewrite ?negb_involutive).
  rewrite !cond_Zopp_negb.
  replace (- cond_Zopp sx (Z.pos (fst (shl_align mx ex (Z.min ex ey))))
           - - cond_Zopp sy (Z.pos (fst (shl_align my ey (Z.min ex ey)))))
    with (- (cond_Zopp sx (Z.pos (fst (shl_align mx ex (Z.min ex ey))))
             - cond_Zopp sy (Z.pos (fst (shl_align my ey (Z.min ex ey))))))
    by lia.
  apply binary_normalize_mirror.
Qed.

Lemma SFadd_mirror (x y : spec_float) :
  mirror (SFadd prec emax (SFopp x) (SFopp y)) (SFadd prec emax x y).
Proof.
  destruct x as [[]|[]| |sx mx ex], y as [[]|[]| |sy my ey];
    cbn [SFopp SFadd negb]; try (left; reflexivity);
    try (right; split; reflexivity).
  rewrite !cond_Zopp_negb.
  replace (- cond_Zopp sx (Z.pos (fst (shl_align mx ex (Z.min ex ey))))
           + - cond_Zopp sy (Z.pos (fst (shl_align my ey (Z.min ex ey)))))
    with (- (cond_Zopp sx (Z.pos (fst (shl_align mx ex (Z.min ex ey))))
             + cond_Zopp sy (Z.pos (fst (shl_align my ey (Z.min ex ey))))))
    by lia.
  apply binary_normalize_mirror.
Qed.
End Opposite.

Lemma of_Z_opp (z : Z) : z <> 0 -> F32.of_Z (- z) = SFopp (F32.of_Z z).
Proof. apply binary_normalize_opp. Qed.

Lemma mirror_units47 (a b : spec_float) :
  mirror a b -> units47 a = - units47 b /\ representable47 a = representable47 b.
Proof.
  intros [-> | [-> ->]]; [|split; reflexivity].
  destruct b as [s|s| |s m e]; cbn; try (split; reflexivity).
  split; [|reflexivity]. destruct s; cbn; lia.
Qed.

(** ** Exactness of the partial sums *)

Lemma partial_sum_nonneg (j : Z) :
  0 <= j <= 49104 ->
  F32.add (F32.of_Z j) f32_one = F32.of_Z (j + 1) /\
  F32.add (F32.of_Z j) f32_minus_one = F32.of_Z (j - 1) /\
  finite_nonzero (F32.of_Z (j + 1)) = true.
Proof.
  intros Hj.
  assert (Hall : forall_range 16 0
                   (fun j => (49104 <? j) || partial_sum_check j) = true)
    by (vm_compute; reflexivity).
  pose proof (forall_range_spec _ 16 0 Hall j) as Hk.
  cbv beta in Hk. destruct (Z.ltb_spec 49104 j); [lia|].
  cbn [orb] in Hk. unfold partial_sum_check in Hk. cbv zeta in Hk.
  change (2 ^ Z.of_nat 16) with 65536 in Hk.
  specialize (Hk ltac:(lia)).
  apply andb_prop in Hk as [Hk Hnz]. apply andb_prop in Hk as [Hp Hm].
  apply sf_eqb_eq in Hp, Hm. auto.
Qed.

Lemma mirror_finite_nonzero (a b : spec_float) :
  mirror a b -> finite_nonzero b = true -> a = SFopp b.
Proof. intros [-> | [_ ->]]; [reflexivity | discriminate]. Qed.

Lemma partial_sum_checked (j : Z) :
  -49104 <= j <= 49104 ->
  F32.add (F32.of_Z j) f32_one = F32.of_Z (j + 1) /\
  F32.add (F32.of_Z j) f32_minus_one = F32.of_Z (j - 1).
Proof.
  intros Hj. destruct (Z_le_gt_dec 0 j) as [Hpos|Hneg].
  { destruct (partial_sum_nonneg j) as (Hp & Hm & _); [lia | auto]. }
  replace j with (- (- j)) by lia. set (i := - j).
  assert (Hi : 1 <= i <= 49104) by (unfold i; lia). clearbody i.
  rewrite (of_Z_opp i) by lia.
  destruct (partial_sum_nonneg i) as (Hp & Hm & Hnz); [lia|].
  split.
  - destruct (Z.eq_dec i 1) as [->|Hne]; [vm_compute; reflexivity|].
    destruct (partial_sum_nonneg (i - 2)) as (_ & _ & Hnz'); [lia|].
    replace (i - 2 + 1) with (i - 1) in Hnz' by lia.
    pose proof (SFadd_mirror F32.prec F32.emax (F32.of_Z i) f32_minus_one)
      as Hmir.
    change (SFadd F32.prec F32.emax) with F32.add in Hmir.
    rewrite Hm in Hmir.
    change (SFopp f32_minus_one) with f32_one in Hmir.
    rewrite (mirror_finite_nonzero _ _ Hmir Hnz').
    rewrite <- of_Z_opp by lia. f_equal. lia.
  - pose proof (SFadd_mirror F32.prec F32.emax (F32.of_Z i) f32_one) as Hmir.
    change (SFadd F32.prec F32.emax) with F32.add in Hmir.
    rewrite Hp in Hmir.
    change (SFopp f32_one) with f32_minus_one in Hmir.
    rewrite (mirror_finite_nonzero _ _ Hmir Hnz).
    rewrite <- of_Z_opp by lia. f_equal. lia.
Qed.

(** ** The bounds for every count *)

(** The value of a multiple of [2^-47] from its number of units. *)
Lemma to_Q_units47 (x : spec_float) :
  representable47 x = true ->
  (F32.to_Q x == inject_Z (units47 x) / inject_Z (2 ^ 47))%Q.
Proof.
  destruct x as [s|s| |s m e]; cbn [representable47]; try discriminate.
  - intros _. cbn. reflexivity.
  - intros He. apply Z.leb_le in He. cbn [F32.to_Q units47].
    assert (Hpow : (inject_Z (2 ^ (e + 47)) == Qpower 2 e * inject_Z (2 ^ 47))%Q).
    { rewrite !Zpower_Qpower by lia. rewrite Qpower_plus by discriminate.
      reflexivity. }
    assert (Hnz : ~ (inject_Z (2 ^ 47) == 0)%Q) by discriminate.
    rewrite Z.shiftl_mul_pow2 by lia.
    destruct s; cbn [cond_Zopp].
    + rewrite <- Z.mul_opp_l, inject_Z_mult, Hpow. field. exact Hnz.
    + rewrite inject_Z_mult, Hpow. field. exact Hnz.
Qed.

Lemma representable47_finite (x : spec_float) :
  representable47 x = true -> F32.is_finite x = true.
Proof. destruct x; cbn; congruence. Qed.

Lemma Qabs_fraction_le (a : Z) (d c : positive) :
  Z.abs a * Zpos c <= Zpos d ->
  (Qabs (inject_Z a / inject_Z (Zpos d)) <= 1 # c)%Q.
Proof.
  intros Hle. rewrite <- Qmake_Qdiv. unfold Qabs, Qle. cbn [Qnum Qden]. lia.
Qed.

Ltac push_inject :=
  repeat (rewrite inject_Z_plus || rewrite inject_Z_mult
          || rewrite inject_Z_opp).

Lemma normalization_check_sound (k : Z) :
  normalization_check k = true ->
  normalized_within k (f32_mean_of_count k) (F32.sub f32_one (f32_mean_of_count k))
                    (F32.sub f32_minus_one (f32_mean_of_count k)).
Proof.
  unfold normalization_check. cbv zeta.
  set (m := f32_mean_of_count k). set (rp := F32.sub f32_one m).
  set (rm := F32.sub f32_minus_one m).
  intros Hcheck.
  apply andb_prop in Hcheck as [Hcheck H4]. apply andb_prop in Hcheck as [Hcheck H3].
  apply andb_prop in Hcheck as [Hcheck H2]. apply andb_prop in Hcheck as [Hcheck H1].
  apply andb_prop in Hcheck as [Hcheck Hrm]. apply andb_prop in Hcheck as [Hm Hrp].
  apply Z.leb_le in H1, H2, H3, H4.
  pose proof (to_Q_units47 m Hm) as Em.
  pose proof (to_Q_units47 rp Hrp) as Ep.
  pose proof (to_Q_units47 rm Hrm) as En.
  apply representable47_finite in Hm, Hrp, Hrm.
  set (um := units47 m) in *. set (up := units47 rp) in *.
  set (un := units47 rm) in *. clearbody um up un.
  change (2 ^ 47) with 140737488355328 in *.
  unfold normalized_within.
  split; [exact Hm|]. split; [exact Hrp|]. split; [exact Hrm|].
  split; [|split; [|split]].
  - assert (E : (F32.to_Q m - inject_Z (49104 - 2 * k) / inject_Z 49104
                 == inject_Z (um * 49104 - (49104 - 2 * k) * 140737488355328)
                    / inject_Z 6910773628200026112)%Q).
    { rewrite Em. unfold Z.sub.
      change (inject_Z 6910773628200026112)
        with (inject_Z (140737488355328 * 49104)).
      push_inject. field. }
    rewrite E. apply Qabs_fraction_le. lia.
  - assert (E : (F32.to_Q rp + F32.to_Q m - inject_Z 1
                 == inject_Z (up + um - 140737488355328)
                    / inject_Z 140737488355328)%Q).
    { rewrite Ep, Em. unfold Z.sub.
      push_inject. field. }
    rewrite E. apply Qabs_fraction_le. lia.
  - assert (E : (F32.to_Q rm + F32.to_Q m - inject_Z (-1)
                 == inject_Z (un + um + 140737488355328)
                    / inject_Z 140737488355328)%Q).
    { rewrite En, Em. push_inject. field. }
    rewrite E. apply Qabs_fraction_le. lia.
  - assert (E : ((inject_Z (49104 - k) * F32.to_Q rp + inject_Z k * F32.to_Q rm)
                 / inject_Z 49104
                 == inject_Z ((49104 - k) * up + k * un)
                    / inject_Z 6910773628200026112)%Q).
    { rewrite Ep, En. unfold Z.sub.
      change (inject_Z 6910773628200026112)
        with (inject_Z (140737488355328 * 49104)).
      push_inject. field. }
    rewrite E. apply Qabs_fraction_le. lia.
Qed.

(** The check for [k] samples -1 gives the check for [k] samples +1. *)
Lemma normalization_check_mirror (k : Z) :
  49104 - 2 * k <> 0 ->
  normalization_check k = true -> normalization_check (49104 - k) = true.
Proof.
  intros Hk. unfold normalization_check. cbv zeta.
  assert (Hm : f32_mean_of_count (49104 - k) = SFopp (f32_mean_of_count k)).
  { unfold f32_mean_of_count.
    replace (49104 - 2 * (49104 - k)) with (- (49104 - 2 * k)) by lia.
    rewrite (of_Z_opp _ Hk). apply SFdiv_opp. }
  rewrite Hm. set (m := f32_mean_of_count k).
  destruct (mirror_units47 (SFopp m) m) as [Eum Erm]; [now left|].
  destruct (mirror_units47 _ _ (SFsub_mirror F32.prec F32.emax f32_minus_one m))
    as [Eup Erp].
  destruct (mirror_units47 _ _ (SFsub_mirror F32.prec F32.emax f32_one m))
    as [Eun Ern].
  change (SFsub F32.prec F32.emax (SFopp f32_minus_one) (SFopp m))
    with (F32.sub f32_one (SFopp m)) in Eup, Erp.
  change (SFsub F32.prec F32.emax (SFopp f32_one) (SFopp m))
    with (F32.sub f32_minus_one (SFopp m)) in Eun, Ern.
  change (SFsub F32.prec F32.emax f32_minus_one m)
    with (F32.sub f32_minus_one m) in Eup, Erp.
  change (SFsub F32.prec F32.emax f32_one m)
    with (F32.sub f32_one m) in Eun, Ern.
  rewrite Eum, Erm, Eup, Erp, Eun, Ern.
  set (um := units47 m). set (up := units47 (F32.sub f32_one m)).
  set (un := units47 (F32.sub f32_minus_one m)).
  intros Hcheck.
  apply andb_prop in Hcheck as [Hcheck H4]. apply andb_prop in Hcheck as [Hcheck H3].
  apply andb_prop in Hcheck as [Hcheck H2]. apply andb_prop in Hcheck as [Hcheck H1].
  apply andb_prop in Hcheck as [Hcheck Hrm]. apply andb_prop in Hcheck as [Hrm' Hrp].
  apply Z.leb_le in H1, H2, H3, H4.
  rewrite Hrm', Hrp, Hrm. cbn [andb].
  repeat (apply andb_true_intro; split); apply Z.leb_le.
  - lia.
  - lia.
  - lia.
  - replace ((49104 - (49104 - k)) * - un + (49104 - k) * - up)
      with (- ((49104 - k) * up + k * un)) by ring.
    now rewrite Z.abs_opp.
Qed.

Lemma normalization_check_all (k : Z) :
  0 <= k <= 49104 -> normalization_check k = true.
Proof.
  intros Hk0.
  assert (Hall : forall_range 15 0
                   (fun k => (24552 <? k) || normalization_check k) = true)
    by (vm_compute; reflexivity).
  assert (Hlow : forall i, 0 <= i <= 24552 -> normalization_check i = true).
  { intros i Hi. pose proof (forall_range_spec _ 15 0 Hall i) as Hk.
    cbv beta in Hk. destruct (Z.ltb_spec 24552 i); [lia|].
    apply Hk. change (2 ^ Z.of_nat 15) with 32768. lia. }
  destruct (Z_le_gt_dec k 24552) as [Hle|Hgt]; [apply Hlow; lia|].
  replace k with (49104 - (49104 - k)) by lia.
  apply normalization_check_mirror; [lia | apply Hlow; lia].
Qed.

Lemma normalization_checked (k : Z) :
  0 <= k <= 49104 ->
  normalized_within k (f32_mean_of_count k)
                    (F32.sub f32_one (f32_mean_of_count k))
                    (F32.sub f32_minus_one (f32_mean_of_count k)).
Proof.
  intros Hk. now apply normalization_check_sound, normalization_check_all.
Qed.

(** The [float32] sum of samples is exact, whatever the order of the
    additions: every partial sum is an integer below [2^24]. *)
Lemma np_sum_f32_exact (l : list Z) :
  forall acc : Z,
    Forall (fun s => s = -1 \/ s = 1) l ->
    Z.abs acc + len l <= 49105 ->
    fold_left F32.add (map F32.of_Z l) (F32.of_Z acc) = F32.of_Z (acc + Zsum l).
Proof.
  induction l as [|x l IH]; intros acc Hl Hacc.
  - cbn. now rewrite Z.add_0_r.
  - unfold len in *. cbn [List.length] in Hacc. rewrite Nat2Z.inj_succ in Hacc.
    inversion Hl as [|? ? Hx Hl']; subst.
    destruct (partial_sum_checked acc ltac:(lia)) as [Hplus Hminus].
    change f32_one with (F32.of_Z 1) in Hplus.
    change f32_minus_one with (F32.of_Z (-1)) in Hminus.
    cbn [map fold_left Zsum fold_right].
    destruct Hx as [-> | ->].
    + rewrite Hminus, IH by (auto; lia). f_equal. unfold Zsum. lia.
    + rewrite Hplus, IH by (auto; lia). f_equal. unfold Zsum. lia.
Qed.

Lemma count_neg_bounds (l : list Z) : 0 <= count_neg l <= len l.
Proof.
  unfold count_neg, len. pose proof (count_occ_bound Z.eq_dec (-1) l). lia.
Qed.

Lemma Zsum_bipolar (l : list Z) :
  Forall (fun s => s = -1 \/ s = 1) l -> Zsum l = len l - 2 * count_neg l.
Proof.
  unfold count_neg, len. induction 1 as [|x l Hx Hl IH]; [reflexivity|].
  cbn [Zsum fold_right List.length]. fold (Zsum l). rewrite IH.
  destruct Hx as [-> | ->].
  - rewrite count_occ_cons_eq by reflexivity. lia.
  - rewrite count_occ_cons_neq by discriminate. lia.
Qed.

Lemma Qsum_map_bipolar (g : Z -> Q) (l : list Z) :
  Forall (fun s => s = -1 \/ s = 1) l ->
  (Qsum (map g l)
   == inject_Z (len l - count_neg l) * g 1%Z
      + inject_Z (count_neg l) * g (-1)%Z)%Q.
Proof.
  unfold count_neg, len. induction 1 as [|x l Hx Hl IH].
  - cbn. ring.
  - cbn [map Qsum fold_right List.length]. fold (Qsum (map g l)). rewrite IH.
    destruct Hx as [-> | ->].
    + rewrite count_occ_cons_eq by reflexivity.
      rewrite !Nat2Z.inj_succ. unfold Z.succ.
      replace (Z.of_nat (List.length l) + 1
               - (Z.of_nat (count_occ Z.eq_dec l (-1)) + 1))
        with (Z.of_nat (List.length l) - Z.of_nat (count_occ Z.eq_dec l (-1)))
        by lia.
      rewrite !inject_Z_plus. ring.
    + rewrite count_occ_cons_neq by discriminate.
      rewrite !Nat2Z.inj_succ. unfold Z.succ.
      replace (Z.of_nat (List.length l) + 1
               - Z.of_nat (count_occ Z.eq_dec l (-1)))
        with (Z.of_nat (List.length l) - Z.of_nat (count_occ Z.eq_dec l (-1)) + 1)
        by lia.
      rewrite !inject_Z_plus. ring.
Qed.

Lemma decode_signal_normalized (signal_bytes : list byte) :
  decode_signal signal_bytes true
  = Float32Array
      (map (fun s => F32.sub (F32.of_Z s)
                       (np_mean_f32
                          (map F32.of_Z
                             (map (fun b => -2 * b + 1)
                                  (np_unpackbits_little signal_bytes)))))
           (map (fun b => -2 * b + 1) (np_unpackbits_little signal_bytes))).
Proof.
  unfold decode_signal.
  replace (map (fun b => int8_add (int8_mul (-2) (astype_int8 b)) 1)
               (np_unpackbits_little signal_bytes))
    with (map (fun b => -2 * b + 1) (np_unpackbits_little signal_bytes)).
  - now rewrite map_map.
  - apply map_ext_Forall.
    eapply Forall_impl; [|apply unpackbits_are_bits].
    intros z [b ->]. symmetry. apply bipolar_of_bit.
Qed.

Lemma np_mean_f32_bipolar (raw : list Z) :
  Forall (fun s => s = -1 \/ s = 1) raw ->
  len raw = 49104 ->
  np_mean_f32 (map F32.of_Z raw) = f32_mean_of_count (count_neg raw).
Proof.
  intros Hraw Hlen. unfold np_mean_f32, np_sum_f32, f32_mean_of_count.
  change (S754_zero false) with (F32.of_Z 0).
  rewrite np_sum_f32_exact by (auto; cbn; lia).
  rewrite length_map. fold (len raw).
  rewrite Z.add_0_l, (Zsum_bipolar raw Hraw), Hlen. reflexivity.
Qed.

Lemma Forall2_map_right {A B} (R : A -> B -> Prop) (f : A -> B) (l : list A) :
  Forall (fun x => R x (f x)) l -> Forall2 R l (map f l).
Proof. induction 1; cbn; constructor; auto. Qed.

(** C4.  For every buffer of 6138 bytes, the normalised decoding has the
    length, 49104, of the plain one; it is the plain output, converted to
    [float32], minus the [float32] mean of the samples, element by element,
    that mean being within [2^-25] of their exact arithmetic mean; every
    normalised value is finite and, added to the mean, within [2^-24] of its
    sample; and the exact mean of the normalised values is within [1e-6] of
    zero. *)
Theorem decode_normalized (buffer : list byte) :
  len buffer = 6138 ->
  exists (raw : list Z) (out : list spec_float) (mean : spec_float),
    decode buffer false = Int8Array raw /\
    decode buffer true = Float32Array out /\
    len out = len raw /\
    len out = 49104 /\
    mean = np_mean_f32 (map F32.of_Z raw) /\
    out = map (fun s => F32.sub (F32.of_Z s) mean) raw /\
    (Qabs (F32.to_Q mean - inject_Z (Zsum raw) / inject_Z (len raw))
     <= 1 # 33554432)%Q /\
    Forall (fun o => F32.is_finite o = true) out /\
    Forall2 (fun s o =>
               (Qabs (F32.to_Q o + F32.to_Q mean - inject_Z s)
                <= 1 # 16777216)%Q) raw out /\
    (Qabs (Qsum (map F32.to_Q out) / inject_Z (len out)) <= 1 # 1000000)%Q.
Proof.
  intros Hbuf.
  set (raw := map (fun b => -2 * b + 1)
                  (np_unpackbits_little (firstn (Z.to_nat 6138) buffer))).
  assert (Hraw : Forall (fun s => s = -1 \/ s = 1) raw)
    by apply bipolar_samples.
  assert (Hlen : len raw = 49104).
  { unfold raw. rewrite len_decode_raw. lia. }
  pose proof (count_neg_bounds raw) as Hk. rewrite Hlen in Hk.
  pose proof (normalization_checked (count_neg raw) Hk) as Hcheck.
  rewrite <- (np_mean_f32_bipolar raw Hraw Hlen) in Hcheck.
  change f32_one with (F32.of_Z 1) in Hcheck.
  change f32_minus_one with (F32.of_Z (-1)) in Hcheck.
  set (mean := np_mean_f32 (map F32.of_Z raw)) in *.
  destruct Hcheck as (Hfm & Hfp & Hfn & Hmean & Hbp & Hbn & Hzero).
  assert (Hout : len (map (fun s => F32.sub (F32.of_Z s) mean) raw) = 49104).
  { unfold len in *. now rewrite length_map. }
  exists raw, (map (fun s => F32.sub (F32.of_Z s) mean) raw), mean.
  split; [apply decode_raw|].
  split.
  { unfold decode. rewrite bytes_per_snapshot_eq. apply decode_signal_normalized. }
  split; [congruence|]. split; [exact Hout|]. split; [reflexivity|].
  split; [reflexivity|]. split.
  { now rewrite (Zsum_bipolar raw Hraw), Hlen. }
  split.
  { apply Forall_map. eapply Forall_impl; [|exact Hraw].
    intros s [-> | ->]; assumption. }
  split.
  { apply Forall2_map_right. eapply Forall_impl; [|exact Hraw].
    intros s [-> | ->]; assumption. }
  rewrite Hout, map_map.
  rewrite (Qsum_map_bipolar (fun s => F32.to_Q (F32.sub (F32.of_Z s) mean))
             raw Hraw).
  now rewrite Hlen.
Qed.

Lemma decode_normalized_witness :
  len zero_buffer = 6138 /\
  exists (raw : list Z) (out : list spec_float),
    decode zero_buffer false = Int8Array raw /\
    decode zero_buffer true = Float32Array out /\
    len out = len raw /\
    (Qabs (Qsum (map F32.to_Q out) / inject_Z (len out)) <= 1 # 1000000)%Q.
Proof.
  assert (H : len zero_buffer = 6138).
  { unfold len, zero_buffer. rewrite repeat_length. lia. }
  split; [exact H|].
  destruct (decode_normalized zero_buffer H)
    as (raw & out & mean & Hraw & Hout & Hlen & _ & _ & _ & _ & _ & _ & Hmean).
  exists raw, out. repeat split; assumption.
Defined.

(** * The horizontal error *)

(** ** Sign of the norm *)

Lemma binary_round_aux_nonneg (prec emax mx ex : Z) (lx : location) :
  F64.nonneg_or_nan (binary_round_aux prec emax false mx ex lx) = true.
Proof.
  unfold binary_round_aux.
  destruct (shr_fexp prec emax mx ex lx) as [mrs e'].
  destruct (shr_fexp prec emax _ e' loc_Exact) as [mrs' e''].
  destruct (shr_m mrs'); [reflexivity| |reflexivity].
  destruct (Z.leb e'' (emax - prec)); reflexivity.
Qed.

Lemma SFmul_square_nonneg (prec emax : Z) (x : spec_float) :
  F64.nonneg_or_nan (SFmul prec emax x x) = true.
Proof.
  destruct x as [s|s| |s m e]; cbn [SFmul]; rewrite ?xorb_nilpotent;
    try reflexivity.
  apply binary_round_aux_nonneg.
Qed.

Lemma SFadd_nonneg (prec emax : Z) (x y : spec_float) :
  F64.nonneg_or_nan x = true -> F64.nonneg_or_nan y = true ->
  F64.nonneg_or_nan (SFadd prec emax x y) = true.
Proof.
  intros Hx Hy.
  destruct x as [[]|[]| |[] mx ex]; try discriminate Hx;
    destruct y as [[]|[]| |[] my ey]; try discriminate Hy;
    try reflexivity.
  cbn [SFadd cond_Zopp Z.add]. unfold binary_normalize, binary_round.
  destruct (shl_align _ _ _) as [mz ez]. apply binary_round_aux_nonneg.
Qed.

Lemma SFsqrt_nonneg (prec emax : Z) (x : spec_float) :
  F64.nonneg_or_nan x = true -> F64.nonneg_or_nan (SFsqrt prec emax x) = true.
Proof.
  intros Hx.
  destruct x as [[]|[]| |[] m e]; try discriminate Hx; try reflexivity.
  cbn [SFsqrt]. destruct (SFsqrt_core_binary prec emax (Z.pos m) e) as [[mz ez] lz].
  apply binary_round_aux_nonneg.
Qed.

(** The norm of two [float64] components is [+0.0], positive, [+inf] or a
    NaN. *)
Lemma norm2_nonneg (x y : spec_float) : F64.nonneg_or_nan (norm2 x y) = true.
Proof.
  unfold norm2. cbn [s_sqrt s_add s_mul float64_Scalar].
  apply SFsqrt_nonneg, SFadd_nonneg; apply SFmul_square_nonneg.
Qed.

Lemma norm2_zeros (x y : spec_float) :
  F64.is_zero x = true -> F64.is_zero y = true ->
  norm2 x y = S754_zero false.
Proof.
  intros Hx Hy.
  destruct x as [[]| | |]; try discriminate Hx;
    destruct y as [[]| | |]; try discriminate Hy; reflexivity.
Qed.

(** ** The order on [float64] values *)

Lemma SFltb_irrefl (x : spec_float) : SFltb x x = false.
Proof.
  unfold SFltb. destruct x as [s|s| |s m e]; cbn; try reflexivity;
    destruct s; try reflexivity; rewrite Z.compare_refl;
    change (Pos.compare_cont Eq m m) with (Pos.compare m m);
    now rewrite Pos.compare_refl.
Qed.

Lemma SFltb_trans (x y z : spec_float) :
  SFltb x y = true -> SFltb y z = true -> SFltb x z = true.
Proof.
  unfold SFltb.
  destruct x as [sx|sx| |sx mx ex], y as [sy|sy| |sy my ey],
    z as [sz|sz| |sz mz ez]; cbn;
    try discriminate; try (destruct sx, sy, sz; cbn; congruence);
    try (destruct sx, sy; cbn; congruence);
    try (destruct sx, sz; cbn; congruence);
    try (destruct sy, sz; cbn; congruence).
  change (Pos.compare_cont Eq) with Pos.compare.
  destruct sx, sy, sz; try congruence;
    destruct (Z.compare_spec ex ey), (Z.compare_spec ey ez),
      (Z.compare_spec ex ez); try congruence; try lia; subst;
    destruct (Pos.compare_spec mx my), (Pos.compare_spec my mz),
      (Pos.compare_spec mx mz); cbn; try congruence; lia.
Qed.

Lemma SFltb_below_infinity (x y : spec_float) :
  SFltb x y = true -> SFltb y F64.inf = true -> SFltb x F64.inf = true.
Proof. apply SFltb_trans. Qed.

Lemma SFltb_not_eqb (x y : spec_float) :
  SFltb x y = true -> SFeqb y x = false.
Proof.
  unfold SFltb, SFeqb.
  destruct x as [sx|sx| |sx mx ex], y as [sy|sy| |sy my ey]; cbn;
    try discriminate; try (destruct sx, sy; cbn; congruence);
    try (destruct sx; cbn; congruence); try (destruct sy; cbn; congruence).
  change (Pos.compare_cont Eq) with Pos.compare.
  destruct sx, sy; try congruence;
    destruct (Z.compare_spec ex ey), (Z.compare_spec ey ex); try congruence;
    try lia; subst;
    destruct (Pos.compare_spec mx my), (Pos.compare_spec my mx);
    cbn; try congruence; lia.
Qed.

(** ** The choice made by the scan *)

Section ScanChoice.
Context {T : Type} `{Scalar T}.
Hypothesis ltb_irrefl : forall x : T, s_ltb x x = false.
Hypothesis ltb_trans :
  forall x y z : T, s_ltb x y = true -> s_ltb y z = true -> s_ltb x z = true.
Hypothesis below_infinity_trans :
  forall x y : T,
    s_ltb x y = true -> s_below_infinity y = true -> s_below_infinity x = true.

Variable inputPt : @coord T.
Variable minIndex : T.

Lemma indexOfFromStart_loop_kept (ptMeasure0 : T) :
  forall (segs : list (@coord T * @coord T)) (seen : list (T * T))
         (minDistance : option T) (ptMeasure S : T),
    kept minIndex seen (minDistance, ptMeasure) ptMeasure0 ->
    kept minIndex (seen ++ candidates segs inputPt S)
         (indexOfFromStart_loop segs inputPt minIndex minDistance ptMeasure S)
         ptMeasure0.
Proof.
  induction segs as [|[p0 p1] rest IH]; intros seen minD ptM S Hkept.
  { cbn [candidates indexOfFromStart_loop]. now rewrite app_nil_r. }
  cbn [candidates indexOfFromStart_loop].
  set (d := pointToSegment inputPt p0 p1).
  set (m := segmentNearestMeasure p0 p1 inputPt S).
  replace (seen ++ (d, m) :: candidates rest inputPt (s_add S (distance p0 p1)))
    with ((seen ++ [(d, m)]) ++ candidates rest inputPt (s_add S (distance p0 p1)))
    by (now rewrite <- app_assoc).
  fold d m.
  destruct (below d minD) eqn:Hbelow; cbn [andb];
    [destruct (s_ltb minIndex m) eqn:Hm|]; apply IH;
    unfold kept in *; cbn [fst snd] in *.
  - (* the segment is taken *)
    split; [apply in_or_app; right; now left|].
    assert (Hd : s_below_infinity d = true).
    { destruct minD as [d0|]; [|exact Hbelow].
      destruct Hkept as (_ & Hd0 & _). cbn [below] in Hbelow.
      now apply (below_infinity_trans d d0). }
    split; [exact Hd|]. split; [exact Hm|].
    intros c Hc Hcm. apply in_app_or in Hc as [Hc|[<-|[]]];
      [|apply ltb_irrefl].
    destruct (s_ltb (fst c) d) eqn:Hcd; [|reflexivity].
    destruct minD as [d0|].
    + destruct Hkept as (_ & _ & _ & Hmin). cbn [below] in Hbelow.
      rewrite <- (Hmin c Hc Hcm). symmetry.
      now apply (ltb_trans (fst c) d d0).
    + destruct Hkept as (_ & Hnone).
      rewrite <- (Hnone c Hc Hcm). symmetry.
      now apply (below_infinity_trans (fst c) d).
  - (* its measure is not above [minIndex] *)
    destruct minD as [d0|].
    + destruct Hkept as (Hin & Hd0 & Hm0 & Hmin).
      split; [apply in_or_app; now left|]. split; [exact Hd0|].
      split; [exact Hm0|].
      intros c Hc Hcm. apply in_app_or in Hc as [Hc|[<-|[]]]; [now apply Hmin|].
      cbn [snd] in Hcm. congruence.
    + destruct Hkept as (Hpt & Hnone). split; [exact Hpt|].
      intros c Hc Hcm. apply in_app_or in Hc as [Hc|[<-|[]]]; [now apply Hnone|].
      cbn [snd] in Hcm. congruence.
  - (* it is not nearer *)
    destruct minD as [d0|].
    + destruct Hkept as (Hin & Hd0 & Hm0 & Hmin).
      split; [apply in_or_app; now left|]. split; [exact Hd0|].
      split; [exact Hm0|].
      intros c Hc Hcm. apply in_app_or in Hc as [Hc|[<-|[]]]; [now apply Hmin|].
      exact Hbelow.
    + destruct Hkept as (Hpt & Hnone). split; [exact Hpt|].
      intros c Hc Hcm. apply in_app_or in Hc as [Hc|[<-|[]]]; [now apply Hnone|].
      exact Hbelow.
Qed.
End ScanChoice.

(** In [float64]: [project] returns the measure of a candidate whose
    distance is below infinity and that no candidate with a measure above
    [-1.0] beats; it raises [GEOSException] exactly when there is no such
    candidate. *)
Lemma project_choice (line : list (@coord spec_float)) (p : @coord spec_float) :
  let cands := candidates (segments line) p (S754_zero false) in
  (forall m : spec_float,
      project line p = ret m ->
      exists d : spec_float,
        In (d, m) cands /\
        SFltb d F64.inf = true /\
        SFltb (F64.of_Z (-1)) m = true /\
        forall d' m' : spec_float,
          In (d', m') cands -> SFltb (F64.of_Z (-1)) m' = true ->
          SFltb d' d = false) /\
  (project line p = raise GEOSException <->
   forall d' m' : spec_float,
     In (d', m') cands -> SFltb (F64.of_Z (-1)) m' = true ->
     SFltb d' F64.inf = false) /\
  (project line p = raise GEOSException \/
   exists m : spec_float, project line p = ret m).
Proof.
  intros cands.
  pose proof (indexOfFromStart_loop_kept (H := float64_Scalar)
                SFltb_irrefl SFltb_trans
                SFltb_below_infinity p (F64.of_Z (-1)) (F64.of_Z (-1))
                (segments line) [] None (F64.of_Z (-1)) (S754_zero false))
    as Hkept.
  cbn [app] in Hkept. specialize (Hkept (conj eq_refl (fun c (Hc : In c []) => match Hc with end))).
  unfold project, indexOf, indexOfFromStart.
  change (@minus_one spec_float float64_Scalar) with (F64.of_Z (-1)).
  change (@s_zero spec_float float64_Scalar) with (S754_zero false).
  fold cands in Hkept.
  destruct (indexOfFromStart_loop (segments line) p (F64.of_Z (-1)) None
              (F64.of_Z (-1)) (S754_zero false)) as [minD m] eqn:Hloop.
  unfold kept in Hkept. cbn [fst snd s_eqb s_ltb s_below_infinity float64_Scalar] in *.
  destruct minD as [d|].
  - destruct Hkept as (Hin & Hd & Hm & Hmin).
    rewrite (SFltb_not_eqb _ _ Hm).
    split; [|split].
    + intros m' Hret. injection Hret as <-. exists d.
      repeat split; try assumption.
      intros d' m' Hin' Hm'. exact (Hmin (d', m') Hin' Hm').
    + split; [discriminate|]. intros Hnone.
      specialize (Hnone d m Hin Hm). congruence.
    + right. now exists m.
  - destruct Hkept as (-> & Hnone).
    change (SFeqb (F64.of_Z (-1)) (F64.of_Z (-1))) with true. cbn iota.
    split; [|split].
    + discriminate.
    + split; [|reflexivity]. intros _ d' m' Hin' Hm'.
      exact (Hnone (d', m') Hin' Hm').
    + now left.
Qed.

(** ** Symmetry of the distance in [float64] *)

Lemma SFsub_swap (prec emax : Z) (x y : spec_float) :
  mirror (SFsub prec emax y x) (SFsub prec emax x y).
Proof.
  destruct x as [[]|[]| |sx mx ex], y as [[]|[]| |sy my ey];
    cbn [SFopp SFsub negb]; try (left; reflexivity);
    try (right; split; reflexivity);
    try (left; cbn [SFopp]; now rewrite ?negb_involutive).
  rewrite (Z.min_comm ey ex).
  replace (cond_Zopp sy (Z.pos (fst (shl_align my ey (Z.min ex ey))))
           - cond_Zopp sx (Z.pos (fst (shl_align mx ex (Z.min ex ey)))))
    with (- (cond_Zopp sx (Z.pos (fst (shl_align mx ex (Z.min ex ey))))
             - cond_Zopp sy (Z.pos (fst (shl_align my ey (Z.min ex ey))))))
    by lia.
  apply binary_normalize_mirror.
Qed.

Lemma SFmul_opp_square (prec emax : Z) (x : spec_float) :
  SFmul prec emax (SFopp x) (SFopp x) = SFmul prec emax x x.
Proof. destruct x as [[]|[]| |[] m e]; reflexivity. Qed.

Lemma SFmul_mirror_square (prec emax : Z) (x y : spec_float) :
  mirror x y -> SFmul prec emax x x = SFmul prec emax y y.
Proof.
  intros [-> | [-> ->]]; [apply SFmul_opp_square | reflexivity].
Qed.

(** The sum of the squares of two differences does not depend on the
    direction of the differences. *)
Lemma squares_swap (x y x' y' : spec_float) :
  F64.add (F64.mul (F64.sub x y) (F64.sub x y))
          (F64.mul (F64.sub x' y') (F64.sub x' y'))
  = F64.add (F64.mul (F64.sub y x) (F64.sub y x))
            (F64.mul (F64.sub y' x') (F64.sub y' x')).
Proof.
  unfold F64.mul, F64.sub.
  now rewrite (SFmul_mirror_square _ _ _ _ (SFsub_swap _ _ y x)),
    (SFmul_mirror_square _ _ _ _ (SFsub_swap _ _ y' x')).
Qed.

Lemma distance_sym_float64 (a b : @coord spec_float) :
  distance a b = distance b a.
Proof.
  unfold distance. cbv zeta. cbn [s_sqrt s_add s_mul s_sub float64_Scalar].
  f_equal. apply squares_swap.
Qed.

(** The norm of the difference of two points, as [get_error] computes it,
    is their distance as GEOS computes it. *)
Lemma norm2_distance_float64 (p q : @coord spec_float) :
  norm2 (F64.sub (fst q) (fst p)) (F64.sub (snd q) (snd p)) = distance p q.
Proof.
  unfold norm2, distance. cbv zeta. cbn [s_sqrt s_add s_mul s_sub float64_Scalar].
  f_equal. apply squares_swap.
Qed.
(** * The track distance in exact arithmetic *)

Section IdealTrack.
Local Open Scope R_scope.

Abbreviation Rcoord := (@coord R).

Ltac Rdecide :=
  cbv [s_zero s_one s_add s_sub s_mul s_div s_sqrt s_abs s_eqb s_leb s_ltb
       s_below_infinity R_Scalar] in *;
  repeat match goal with
    | |- context [Rlt_dec ?x ?y] => destruct (Rlt_dec x y)
    | |- context [Rle_dec ?x ?y] => destruct (Rle_dec x y)
    | |- context [Req_dec_T ?x ?y] => destruct (Req_dec_T x y)
    end.

Lemma sum_squares_nonneg (u v : R) : 0 <= u * u + v * v.
Proof. nra. Qed.

Lemma sum_squares_zero (u v : R) : u * u + v * v = 0 -> u = 0 /\ v = 0.
Proof. intros Huv. split; nra. Qed.

Lemma distance_nonneg (a b : Rcoord) : 0 <= distance a b.
Proof. apply sqrt_pos. Qed.

Lemma distance_zero (a b : Rcoord) : distance a b = 0 -> a = b.
Proof.
  unfold distance. cbv zeta. Rdecide. intros Hd.
  apply sqrt_eq_0 in Hd; [|apply sum_squares_nonneg].
  destruct a as [ax ay], b as [bx b_y]. cbn [fst snd] in Hd.
  apply sum_squares_zero in Hd. destruct Hd. f_equal; lra.
Qed.

Lemma distance_refl (a : Rcoord) : distance a a = 0.
Proof.
  unfold distance. cbv zeta. Rdecide.
  replace (_ + _) with 0 by ring. apply sqrt_0.
Qed.

Lemma distance_sym (a b : Rcoord) : distance a b = distance b a.
Proof. unfold distance. cbv zeta. Rdecide. f_equal. ring. Qed.

Lemma norm2_distance (p q : Rcoord) :
  norm2 (s_sub (fst q) (fst p)) (s_sub (snd q) (snd p)) = distance p q.
Proof. unfold norm2, distance. cbv zeta. Rdecide. f_equal. ring. Qed.

Lemma coord_eqb_true (a b : Rcoord) : coord_eqb a b = true -> a = b.
Proof.
  destruct a as [ax ay], b as [bx b_y]. unfold coord_eqb. cbn [fst snd].
  Rdecide; cbn; try discriminate. intros _. now subst.
Qed.

Lemma coord_eqb_false (a b : Rcoord) : coord_eqb a b = false -> a <> b.
Proof.
  destruct a as [ax ay], b as [bx b_y]. unfold coord_eqb. cbn [fst snd].
  Rdecide; cbn; try discriminate; intros _ Heq; injection Heq; intros; contradiction.
Qed.

Lemma coord_eqb_refl (a : Rcoord) : coord_eqb a a = true.
Proof.
  destruct (coord_eqb a a) eqn:Heq; [reflexivity|].
  now apply coord_eqb_false in Heq.
Qed.

Lemma R_leb_true (x y : R) : x <= y -> s_leb x y = true.
Proof. intros. Rdecide; [reflexivity|contradiction]. Qed.

Lemma R_leb_false (x y : R) : y < x -> s_leb x y = false.
Proof. intros. Rdecide; [lra|reflexivity]. Qed.

Lemma R_ltb_true (x y : R) : x < y -> s_ltb x y = true.
Proof. intros. Rdecide; [reflexivity|contradiction]. Qed.

Lemma R_ltb_false (x y : R) : y <= x -> s_ltb x y = false.
Proof. intros. Rdecide; [lra|reflexivity]. Qed.

Lemma R_eqb_false (x y : R) : x <> y -> s_eqb x y = false.
Proof. intros. Rdecide; [contradiction|reflexivity]. Qed.

Lemma point_along_start (a b : Rcoord) (t : R) :
  t <= 0 -> point_along a b t = a.
Proof.
  intros Ht. unfold point_along. cbn [s_zero R_Scalar].
  now rewrite (R_leb_true t 0 Ht).
Qed.

Lemma point_along_end (a b : Rcoord) (t : R) :
  1 <= t -> point_along a b t = b.
Proof.
  intros Ht. unfold point_along. cbn [s_zero s_one R_Scalar].
  rewrite (R_leb_false t 0) by lra. now rewrite (R_leb_true 1 t Ht).
Qed.

(** The squared length of a segment with distinct ends is positive. *)
Lemma len2_pos (a b : Rcoord) :
  a <> b ->
  0 < (fst b - fst a) * (fst b - fst a) + (snd b - snd a) * (snd b - snd a).
Proof.
  intros Hab. destruct a as [ax ay], b as [bx b_y]. cbn [fst snd].
  assert (Hsq : forall u : R, u <> 0 -> 0 < u * u)
    by (intros u Hu; apply (Rsqr_pos_lt u Hu)).
  pose proof (Rle_0_sqr (bx - ax)) as Hx0.
  pose proof (Rle_0_sqr (b_y - ay)) as Hy0. unfold Rsqr in Hx0, Hy0.
  destruct (Req_dec_T bx ax) as [Hx|Hx].
  - destruct (Req_dec_T b_y ay) as [Hy|Hy]; [exfalso; apply Hab; now subst|].
    specialize (Hsq (b_y - ay) ltac:(lra)). lra.
  - specialize (Hsq (bx - ax) ltac:(lra)). lra.
Qed.

(** In exact arithmetic the distance to a segment computed by GEOS is the
    distance to the projection clamped to the segment. *)
Lemma pointToSegment_clamped (p a b : Rcoord) :
  pointToSegment p a b = distance p (clamped_projection p a b).
Proof.
  unfold pointToSegment, clamped_projection.
  destruct (coord_eqb a b) eqn:Hab; [reflexivity|].
  apply coord_eqb_false in Hab. pose proof (len2_pos a b Hab) as Hlen.
  cbv zeta. fold (projection_parameter p a b).
  set (r := projection_parameter p a b).
  cbn [s_zero s_one R_Scalar].
  destruct (Rle_dec r 0) as [Hr0|Hr0].
  { rewrite (R_leb_true r 0 Hr0). now rewrite point_along_start. }
  rewrite (R_leb_false r 0) by lra.
  destruct (Rle_dec 1 r) as [Hr1|Hr1].
  { rewrite (R_leb_true 1 r Hr1). now rewrite point_along_end. }
  rewrite (R_leb_false 1 r) by lra.
  unfold point_along. cbn [s_zero s_one R_Scalar].
  rewrite (R_leb_false r 0), (R_leb_false 1 r) by lra.
  unfold distance. cbv zeta. cbn [fst snd]. subst r.
  unfold projection_parameter.
  cbn [s_add s_sub s_mul s_div s_sqrt s_abs R_Scalar].
  destruct a as [ax ay], b as [bx b_y], p as [px py]. cbn [fst snd] in *.
  set (D := (bx - ax) * (bx - ax) + (b_y - ay) * (b_y - ay)) in *.
  set (s := ((ay - py) * (bx - ax) - (ax - px) * (b_y - ay)) / D).
  rewrite <- (sqrt_Rsqr_abs s), <- sqrt_mult;
    [|apply Rle_0_sqr | lra].
  f_equal. unfold Rsqr, s, D. field. fold D. lra.
Qed.

(** The factor computed by GEOS, with its shortcuts for the ends, is the
    projection parameter. *)
Lemma projectionFactor_parameter (p a b : Rcoord) :
  a <> b -> projectionFactor a b p = projection_parameter p a b.
Proof.
  intros Hab. pose proof (len2_pos a b Hab) as Hlen.
  unfold projectionFactor, projection_parameter.
  destruct (coord_eqb p a) eqn:Hpa.
  { apply coord_eqb_true in Hpa. subst p.
    cbn [s_zero s_add s_sub s_mul s_div R_Scalar]. field. lra. }
  destruct (coord_eqb p b) eqn:Hpb; [|reflexivity].
  apply coord_eqb_true in Hpb. subst p.
  cbn [s_one s_add s_sub s_mul s_div R_Scalar]. field. lra.
Qed.

(** The measure of the nearest point lies on the segment, and the point of
    the segment at that distance from its start is the clamped
    projection. *)
Lemma segmentNearestMeasure_spec (p a b : Rcoord) (S : R) :
  exists mu : R,
    segmentNearestMeasure a b p S = S + mu /\
    0 <= mu <= distance b a /\
    (mu < distance b a ->
     point_along a b (mu / distance b a) = clamped_projection p a b) /\
    (mu = distance b a -> b = clamped_projection p a b).
Proof.
  pose proof (distance_nonneg b a) as Hlen.
  unfold segmentNearestMeasure, clamped_projection. cbv zeta.
  rewrite (distance_sym a b).
  destruct (coord_eqb a b) eqn:Hab.
  - apply coord_eqb_true in Hab. subst b. rewrite distance_refl.
    exists 0. cbn [s_zero s_one s_add s_mul R_Scalar].
    split; [|split; [lra | split; [lra | reflexivity]]].
    destruct (s_leb _ 0); [ring|]. destruct (s_leb _ 1); ring.
  - apply coord_eqb_false in Hab.
    assert (Hpos : 0 < distance b a).
    { destruct Hlen as [Hlt|Heq]; [exact Hlt|].
      symmetry in Heq. apply distance_zero in Heq. now subst. }
    rewrite (projectionFactor_parameter p a b Hab).
    set (r := projection_parameter p a b). set (len := distance b a) in *.
    cbn [s_zero s_one s_add s_mul R_Scalar].
    destruct (Rle_dec r 0) as [Hr0|Hr0].
    { rewrite (R_leb_true r 0 Hr0). exists 0.
      split; [ring|]. split; [lra|]. split; [|lra]. intros _.
      rewrite (point_along_start a b r Hr0). apply point_along_start.
      unfold Rdiv. lra. }
    rewrite (R_leb_false r 0) by lra.
    destruct (Rle_dec r 1) as [Hr1|Hr1].
    + rewrite (R_leb_true r 1 Hr1). exists (r * len).
      split; [reflexivity|]. split; [nra|]. split.
      * intros _. f_equal. field. lra.
      * intros Heq. assert (r = 1) by nra. subst r.
        symmetry. apply point_along_end. lra.
    + rewrite (R_leb_false r 1) by lra. exists len.
      split; [reflexivity|]. split; [lra|]. split; [lra|]. intros _.
      symmetry. apply point_along_end. lra.
Qed.

Lemma interpolate_from_step {T} `{Scalar T} (a b : @coord T)
    (tl : list (@coord T)) (d total : T) :
  interpolate_from (a :: b :: tl) d total
  = if s_ltb d (s_add total (distance b a))
    then Some (point_along a b (s_div (s_sub d total) (distance b a)))
    else interpolate_from (b :: tl) d (s_add total (distance b a)).
Proof. reflexivity. Qed.

Lemma interpolate_at_start (b : Rcoord) (tl : list Rcoord) (total : R) :
  interpolate_from (b :: tl) total total = Some b.
Proof.
  revert b. induction tl as [|c tl IH]; intros b; [reflexivity|].
  rewrite interpolate_from_step. cbn [s_add s_sub s_div R_Scalar].
  pose proof (distance_nonneg c b) as Hlen.
  destruct (Rlt_dec total (total + distance c b)) as [Hlt|Hge].
  - rewrite (R_ltb_true _ _ Hlt). f_equal. apply point_along_start.
    unfold Rdiv. rewrite Rminus_diag. lra.
  - rewrite R_ltb_false by lra.
    assert (Hz : distance c b = 0) by lra.
    rewrite Hz, Rplus_0_r. apply distance_zero in Hz. subst c. apply IH.
Qed.

Lemma reaches_next (line : list Rcoord) (a b : Rcoord) (tl : list Rcoord) (S : R) :
  reaches line (a :: b :: tl) S ->
  reaches line (b :: tl) (S + distance b a).
Proof.
  intros Hr m Hm. pose proof (distance_nonneg b a) as Hlen.
  rewrite Hr by lra. rewrite interpolate_from_step. cbn [s_add R_Scalar].
  now rewrite R_ltb_false by lra.
Qed.

Lemma indexOfFromStart_loop_step {T} `{Scalar T} (p0 p1 : @coord T)
    (rest : list (@coord T * @coord T)) (inputPt : @coord T)
    (minIndex : T) (minDistance : option T) (ptMeasure S : T) :
  indexOfFromStart_loop ((p0, p1) :: rest) inputPt minIndex minDistance
    ptMeasure S
  = if (below (pointToSegment inputPt p0 p1) minDistance
        && s_ltb minIndex (segmentNearestMeasure p0 p1 inputPt S))%bool
    then indexOfFromStart_loop rest inputPt minIndex
           (Some (pointToSegment inputPt p0 p1))
           (segmentNearestMeasure p0 p1 inputPt S) (s_add S (distance p0 p1))
    else indexOfFromStart_loop rest inputPt minIndex minDistance ptMeasure
           (s_add S (distance p0 p1)).
Proof. reflexivity. Qed.

Lemma segments_step {T} (a b : @coord T) (tl : list (@coord T)) :
  segments (a :: b :: tl) = (a, b) :: segments (b :: tl).
Proof. reflexivity. Qed.

(** The scan keeps a distance that is attained on the line at the measure
    kept with it. *)
Lemma indexOfFromStart_loop_attained (line : list Rcoord) (p : Rcoord) :
  forall (cur : list Rcoord) (S : R) (minDistance : option R) (ptMeasure : R),
    reaches line cur S -> 0 <= S -> attained line p minDistance ptMeasure ->
    attained line p
      (fst (indexOfFromStart_loop (segments cur) p (-1) minDistance ptMeasure S))
      (snd (indexOfFromStart_loop (segments cur) p (-1) minDistance ptMeasure S)).
Proof.
  induction cur as [|a tl IH]; intros S minD ptM Hreach HS Hbest; [exact Hbest|].
  destruct tl as [|b tl]; [exact Hbest|].
  rewrite segments_step, indexOfFromStart_loop_step. cbn [s_add R_Scalar].
  pose proof (distance_nonneg b a) as Hlen.
  destruct (segmentNearestMeasure_spec p a b S) as (mu & Hmeas & Hmu & Hinside & Hend).
  rewrite (distance_sym a b).
  assert (Hnew : attained line p (Some (pointToSegment p a b))
                   (segmentNearestMeasure a b p S)).
  { rewrite Hmeas. split; [lra|]. exists (clamped_projection p a b).
    split; [|symmetry; apply pointToSegment_clamped].
    rewrite Hreach by lra. rewrite interpolate_from_step.
    cbn [s_add s_sub s_div R_Scalar].
    destruct (Rlt_dec mu (distance b a)) as [Hlt|Hge].
    - rewrite R_ltb_true by lra. f_equal. rewrite <- (Hinside Hlt).
      f_equal. f_equal. ring.
    - assert (Heq : mu = distance b a) by lra.
      rewrite R_ltb_false by lra. rewrite Heq, interpolate_at_start.
      f_equal. now apply Hend. }
  destruct (below _ minD && s_ltb (-1) _)%bool;
    (apply IH; [now apply reaches_next | lra | assumption]).
Qed.

(** In exact arithmetic every segment is a candidate, and the scan keeps
    the minimum of the distances. *)
Lemma indexOfFromStart_loop_min (p : Rcoord) :
  forall (segs : list (Rcoord * Rcoord)) (S d0 m0 : R),
    0 <= S ->
    fst (indexOfFromStart_loop segs p (-1) (Some d0) m0 S)
    = Some (list_min d0 (map (fun s => pointToSegment p (fst s) (snd s)) segs)).
Proof.
  induction segs as [|[a b] rest IH]; intros S d0 m0 HS; [reflexivity|].
  rewrite indexOfFromStart_loop_step. cbn [map list_min fst snd below].
  pose proof (distance_nonneg a b) as Hlen.
  destruct (segmentNearestMeasure_spec p a b S) as (mu & Hmeas & Hmu & _).
  rewrite (R_ltb_true (-1) (segmentNearestMeasure a b p S)) by lra.
  rewrite andb_true_r. cbn [s_add R_Scalar].
  destruct (s_ltb (pointToSegment p a b) d0); apply IH; lra.
Qed.

End IdealTrack.


(** * The track distance in [float64] *)

(** ** A track of two coordinates *)

Lemma SFltb_asym (x y : spec_float) : SFltb x y = true -> SFltb y x = false.
Proof.
  intros Hxy. destruct (SFltb y x) eqn:Hyx; [|reflexivity].
  rewrite <- (SFltb_irrefl x). symmetry. now apply (SFltb_trans x y x).
Qed.

Lemma SFltb_not_leb (x y : spec_float) : SFltb x y = true -> SFleb y x = false.
Proof.
  intros Hxy. pose proof (SFltb_asym x y Hxy) as Hyx.
  pose proof (SFltb_not_eqb x y Hxy) as Heq.
  unfold SFltb, SFeqb, SFleb in *.
  destruct (SFcompare y x) as [[]|]; congruence.
Qed.

Lemma SFadd_zero_positive (x : spec_float) :
  SFltb (S754_zero false) x = true -> F64.add (S754_zero false) x = x.
Proof. destruct x as [s|s| |s m e]; try discriminate; reflexivity. Qed.

Lemma project_two_points (a b p : @coord spec_float) :
  SFltb (pointToSegment p a b) F64.inf = true ->
  SFltb (F64.of_Z (-1)) (segmentNearestMeasure a b p (S754_zero false)) = true ->
  project [a; b] p = ret (segmentNearestMeasure a b p (S754_zero false)).
Proof.
  intros Hd Hm. unfold project, indexOf, indexOfFromStart.
  change (@minus_one spec_float float64_Scalar) with (F64.of_Z (-1)).
  cbn [segments indexOfFromStart_loop below s_below_infinity s_ltb s_zero
       float64_Scalar].
  rewrite Hd, Hm. cbn [andb snd s_eqb float64_Scalar].
  now rewrite (SFltb_not_eqb _ _ Hm).
Qed.

(** When the projection factor is not positive, the error is the distance
    to the first coordinate. *)
Lemma track_error_before_start (a b p : @coord spec_float) :
  SFleb (projectionFactor a b p) (S754_zero false) = true ->
  SFltb (pointToSegment p a b) F64.inf = true ->
  track_error [a; b] p = ret (distance p a).
Proof.
  intros Hr Hd.
  assert (Hm : segmentNearestMeasure a b p (S754_zero false) = S754_zero false).
  { unfold segmentNearestMeasure. cbv zeta.
    cbn [s_leb s_zero float64_Scalar]. now rewrite Hr. }
  unfold track_error. rewrite project_two_points by (rewrite ?Hm; auto).
  rewrite Hm. cbn [ret bind].
  change (interpolate [a; b] (S754_zero false)) with (Some a).
  cbn [app s_sub float64_Scalar]. now rewrite norm2_distance_float64.
Qed.

(** When the projection factor is above one and the segment has a positive
    length, the error is the distance to the last coordinate. *)
Lemma track_error_past_end (a b p : @coord spec_float) :
  SFleb (projectionFactor a b p) (S754_zero false) = false ->
  SFleb (projectionFactor a b p) (F64.of_Z 1) = false ->
  SFltb (S754_zero false) (distance a b) = true ->
  SFltb (pointToSegment p a b) F64.inf = true ->
  track_error [a; b] p = ret (distance p b).
Proof.
  intros Hr0 Hr1 Hlen Hd.
  assert (Hm : segmentNearestMeasure a b p (S754_zero false) = distance a b).
  { unfold segmentNearestMeasure. cbv zeta.
    cbn [s_leb s_zero s_one s_add float64_Scalar]. rewrite Hr0, Hr1.
    now apply SFadd_zero_positive. }
  assert (Hpos : SFltb (F64.of_Z (-1)) (distance a b) = true)
    by (now apply (SFltb_trans _ (S754_zero false))).
  unfold track_error. rewrite project_two_points by (rewrite ?Hm; auto).
  rewrite Hm. cbn [ret bind]. unfold interpolate.
  cbn [s_ltb s_leb s_zero float64_Scalar].
  rewrite (SFltb_asym _ _ Hlen), (SFltb_not_leb _ _ Hlen).
  rewrite interpolate_from_step. cbn [s_ltb s_add s_zero float64_Scalar].
  rewrite (distance_sym_float64 b a), (SFadd_zero_positive _ Hlen),
    SFltb_irrefl.
  cbn [interpolate_from app s_sub float64_Scalar].
  now rewrite norm2_distance_float64.
Qed.

(** ** A test location that is not a number *)

Lemma SFsub_nan_l (prec emax : Z) (x : spec_float) :
  SFsub prec emax S754_nan x = S754_nan.
Proof. reflexivity. Qed.

Lemma SFsub_nan_r (prec emax : Z) (x : spec_float) :
  SFsub prec emax x S754_nan = S754_nan.
Proof. now destruct x. Qed.

Lemma SFmul_nan_l (prec emax : Z) (x : spec_float) :
  SFmul prec emax S754_nan x = S754_nan.
Proof. reflexivity. Qed.

Lemma SFmul_nan_r (prec emax : Z) (x : spec_float) :
  SFmul prec emax x S754_nan = S754_nan.
Proof. now destruct x. Qed.

Lemma SFadd_nan_l (prec emax : Z) (x : spec_float) :
  SFadd prec emax S754_nan x = S754_nan.
Proof. reflexivity. Qed.

Lemma SFadd_nan_r (prec emax : Z) (x : spec_float) :
  SFadd prec emax x S754_nan = S754_nan.
Proof. now destruct x. Qed.

Lemma SFdiv_nan_l (prec emax : Z) (x : spec_float) :
  SFdiv prec emax S754_nan x = S754_nan.
Proof. reflexivity. Qed.

Ltac nan_simpl :=
  unfold F64.add, F64.sub, F64.mul, F64.div, F64.sqrt;
  rewrite ?SFsub_nan_l, ?SFsub_nan_r, ?SFmul_nan_l, ?SFmul_nan_r,
    ?SFadd_nan_l, ?SFadd_nan_r, ?SFdiv_nan_l.

Lemma distance_nan (p a : @coord spec_float) :
  fst p = S754_nan \/ snd p = S754_nan -> distance p a = S754_nan.
Proof.
  unfold distance. cbv zeta. cbn [s_sqrt s_add s_mul s_sub float64_Scalar].
  intros [-> | ->]; now nan_simpl.
Qed.

(** The distance from a point with a NaN coordinate to a segment is a
    NaN. *)
Lemma pointToSegment_nan (p a b : @coord spec_float) :
  fst p = S754_nan \/ snd p = S754_nan -> pointToSegment p a b = S754_nan.
Proof.
  intros Hp. unfold pointToSegment. rewrite !(distance_nan p _ Hp).
  destruct (coord_eqb a b); [reflexivity|]. cbv zeta.
  cbn [s_sqrt s_add s_mul s_sub s_div s_abs s_leb s_zero s_one float64_Scalar].
  destruct Hp as [-> | ->]; nan_simpl; reflexivity.
Qed.

Lemma candidates_distance {T} `{Scalar T} (p : @coord T) :
  forall (segs : list (@coord T * @coord T)) (S d m : T),
    In (d, m) (candidates segs p S) ->
    exists a b, In (a, b) segs /\ d = pointToSegment p a b.
Proof.
  induction segs as [|[a b] rest IH]; intros S d m Hin; [destruct Hin|].
  cbn [candidates] in Hin. destruct Hin as [Heq|Hin].
  - injection Heq as <- _. exists a, b. split; [now left | reflexivity].
  - destruct (IH _ _ _ Hin) as (a' & b' & Hin' & ->).
    exists a', b'. split; [now right | reflexivity].
Qed.

(** [project] raises [GEOSException] for a point with a NaN coordinate,
    whatever the line. *)
Lemma project_nan (line : list (@coord spec_float)) (p : @coord spec_float) :
  fst p = S754_nan \/ snd p = S754_nan ->
  project line p = raise GEOSException.
Proof.
  intros Hp. apply (proj1 (proj2 (project_choice line p))).
  intros d' m' Hin _.
  destruct (candidates_distance p _ _ _ _ Hin) as (a & b & _ & ->).
  now rewrite (pointToSegment_nan p a b Hp).
Qed.
(** ** The error with respect to a static location or a track *)

Section ErrorProperties.
Variable geodetic2enu :
  spec_float -> spec_float -> spec_float ->
  spec_float -> spec_float -> spec_float ->
  spec_float * spec_float * spec_float.

Lemma getitem_ok_nonempty {A} (l : list A) (idx : Z) (t : list event) (x : A) :
  getitem l idx = (t, Ok x) -> l <> [].
Proof. intros Hget ->. unfold getitem in Hget. cbn in Hget.
  destruct (idx <? 0); cbn in Hget.
  - destruct (idx + 0 <? 0), (0 <=? idx + 0); cbn in Hget; try discriminate;
      destruct (Z.to_nat (idx + 0)); discriminate.
  - destruct (idx <? 0), (0 <=? idx); cbn in Hget; try discriminate;
      destruct (Z.to_nat idx); discriminate.
Qed.

(** The loop over the files keeps a reference and at least one converted
    node once it has been through a file. *)
Lemma load_gt_files_loaded (gt_files : list gt_file) :
  forall (st st' : gt_state) (t : list event),
    load_gt_files geodetic2enu gt_files st = (t, Ok st') ->
    gt_files <> [] \/
    (List.concat (st_gt_enu st) <> [] /\ st_ref_location st <> None) ->
    List.concat (st_gt_enu st') <> [] /\ st_ref_location st' <> None.
Proof.
  induction gt_files as [|f rest IH]; intros st st' t Hload Hinv.
  - cbn in Hload. injection Hload as _ <-.
    destruct Hinv as [Hne|Hinv]; [contradiction | exact Hinv].
  - cbn [load_gt_files] in Hload. unfold print in Hload. cbn [bind] in Hload.
    destruct ((String.eqb (file_ending f) "gpx"
               || String.eqb (file_ending f) "kml")%bool);
      cbn [ret raise bind] in Hload; [|discriminate].
    destruct (getitem (nodes f) 0) as [tg [ref|e]] eqn:Hget;
      cbn [bind] in Hload; [|discriminate].
    destruct (load_gt_files geodetic2enu rest _) as [tr [st''|e]] eqn:Hrest;
      [|discriminate].
    injection Hload as _ <-.
    apply (IH _ _ _ Hrest). right. cbn [st_gt_enu st_ref_location].
    split; [|discriminate].
    rewrite concat_app. cbn [List.concat]. rewrite app_nil_r.
    apply getitem_ok_nonempty in Hget.
    destruct (nodes f); [contradiction|].
    cbn [to_enu map]. intros Happ. apply app_eq_nil in Happ as [_ Habs].
    discriminate.
Qed.

(** A dataset built by [__init__] has a track that is absent or has at least
    two coordinates, with a reference. *)
Lemma Dataset_init_track (directory : string) (filenames : option (list string))
    (meta : option GeodeticPoint) (gt_files : list gt_file)
    (t : list event) (self : Dataset) :
  Dataset_init geodetic2enu directory filenames meta gt_files = (t, Ok self) ->
  forall track, _track self = Some track ->
    (2 <= List.length track)%nat /\ _ref_location self <> None.
Proof.
  unfold Dataset_init. destruct gt_files as [|f rest].
  - cbn. destruct meta; cbn; intros Hinit; injection Hinit as _ <-;
      intros track Habs; discriminate.
  - replace (0 <? Z.of_nat (List.length (f :: rest))) with true
      by (symmetry; apply Z.ltb_lt; cbn [List.length]; lia).
    destruct (load_gt_files geodetic2enu (f :: rest) _) as [tl [st|e]] eqn:Hload;
      cbn [bind]; [|discriminate].
    apply load_gt_files_loaded in Hload as [Hne Href]; [|left; discriminate].
    destruct (map _ (List.concat (st_gt_enu st))) as [|c [|c' coords]] eqn:Hmap;
      cbn [LineString ret raise bind]; try discriminate.
    + apply map_eq_nil in Hmap. contradiction.
    + intros Hinit. injection Hinit as _ <-. cbn [_track _ref_location].
      intros track Htrack. injection Htrack as <-. split; [cbn; lia | exact Href].
Qed.

(** Whatever [get_error] computes before its last check has a clear sign
    bit, unless it is a NaN. *)
Lemma horizontal_error_nonneg (self : Dataset) (lat lon : spec_float)
    (t : list event) (err : spec_float) :
  horizontal_error geodetic2enu self lat lon = (t, Ok err) ->
  F64.nonneg_or_nan err = true.
Proof.
  unfold horizontal_error.
  destruct (_ref_location self) as [ref|]; cbn [ret raise bind];
    [|discriminate].
  destruct (geodetic2enu _ _ _ _ _ _) as [[e n] h].
  destruct (_track self) as [track|].
  - unfold track_error.
    destruct (project track (e, n)) as [tp [m|ex]]; cbn [bind];
      [|discriminate].
    destruct (interpolate track m) as [q|]; cbn [ret raise];
      [|discriminate].
    intros Heq. injection Heq as _ <-. apply norm2_nonneg.
  - cbn [ret]. intros Heq. injection Heq as _ <-. apply norm2_nonneg.
Qed.

(** When [get_error] returns, it returns [+inf] or a finite number with a
    clear sign bit. *)
Lemma get_error_returns (self : Dataset) (lat lon : spec_float)
    (t : list event) (v : spec_float) :
  get_error geodetic2enu self lat lon = (t, Ok v) ->
  v = F64.inf \/ F64.finite_nonneg v = true.
Proof.
  unfold get_error.
  destruct (horizontal_error geodetic2enu self lat lon) as [th [err|e]] eqn:Herr;
    cbn [bind]; [|discriminate].
  apply horizontal_error_nonneg in Herr.
  destruct err as [[]|[]| |[] m e]; try discriminate Herr; cbn;
    intros Heq; injection Heq as _ <-; auto.
Qed.

(** C9.  The claim fails on the code for a test location that is not a
    number (a conversion with a NaN coordinate): with a track, the call of
    [project] at lines 316-318 raises [GEOSException], which nothing
    catches, so that the check of line 325 is not reached; with a static
    ground truth the same location gives [+inf].  A dataset without
    ground truth makes [get_error] raise [TypeError].  Whenever
    [get_error] returns, the value is [+inf] or a finite number with a
    clear sign bit. *)
Theorem get_error_raises :
  (forall (self : Dataset) (lat lon : spec_float) (ref : GeodeticPoint)
          (track : list (@coord spec_float)) (east north up : spec_float),
      _ref_location self = Some ref ->
      _track self = Some track ->
      geodetic2enu lat lon (S754_zero false)
                   (latitude ref) (longitude ref) (S754_zero false)
      = (east, north, up) ->
      east = S754_nan \/ north = S754_nan ->
      get_error geodetic2enu self lat lon = raise GEOSException) /\
  (forall (self : Dataset) (lat lon : spec_float) (ref : GeodeticPoint)
          (east north up : spec_float),
      _ref_location self = Some ref ->
      _track self = None ->
      geodetic2enu lat lon (S754_zero false)
                   (latitude ref) (longitude ref) (S754_zero false)
      = (east, north, up) ->
      east = S754_nan \/ north = S754_nan ->
      get_error geodetic2enu self lat lon = ret F64.inf) /\
  (forall (self : Dataset) (lat lon : spec_float),
      _ref_location self = None ->
      get_error geodetic2enu self lat lon = raise TypeError) /\
  (forall (self : Dataset) (lat lon : spec_float) (t : list event)
          (v : spec_float),
      get_error geodetic2enu self lat lon = (t, Ok v) ->
      v = F64.inf \/ F64.finite_nonneg v = true).
Proof.
  split; [|split; [|split]].
  - intros self lat lon ref track east north up Href Htrack Henu Hnan.
    unfold get_error, horizontal_error. rewrite Href, Htrack.
    cbn [ret bind]. rewrite Henu. unfold track_error.
    now rewrite (project_nan track (east, north) Hnan).
  - intros self lat lon ref east north up Href Htrack Henu Hnan.
    unfold get_error, horizontal_error. rewrite Href, Htrack.
    cbn [ret bind]. rewrite Henu. cbn [ret bind app].
    replace (norm2 east north) with S754_nan; [reflexivity|].
    unfold norm2. cbn [s_sqrt s_add s_mul float64_Scalar].
    destruct Hnan as [-> | ->]; now nan_simpl.
  - intros self lat lon Href. unfold get_error, horizontal_error.
    now rewrite Href.
  - apply get_error_returns.
Qed.

(** C8.  For a static ground truth, [get_error] returns the Euclidean norm
    of the (east, north) conversion of the test location with respect to
    the stored reference, computed in [float64] as
    [sqrt (east * east + north * north)] (and [+inf] in place of a norm
    that is a NaN).  When the conversion maps the test location to the
    origin, as for the reference itself, it returns [+0.0].  The result is
    the same for the location on the other side of the reference.  For
    integer components below 32 it lies between the integer square root of
    [east^2 + north^2] and its successor, and is that root when the sum of
    squares is a square. *)
Theorem get_error_static (self : Dataset) (lat lon : spec_float)
    (ref : GeodeticPoint) (east north up : spec_float) :
  _track self = None ->
  _ref_location self = Some ref ->
  geodetic2enu lat lon (S754_zero false)
               (latitude ref) (longitude ref) (S754_zero false)
  = (east, north, up) ->
  let euclid := F64.sqrt (F64.add (F64.mul east east) (F64.mul north north)) in
  get_error geodetic2enu self lat lon
  = ret (if F64.is_nan euclid then F64.inf else euclid) /\
  (F64.is_nan euclid = false ->
   get_error geodetic2enu self lat lon = ret euclid) /\
  (F64.is_zero east = true -> F64.is_zero north = true ->
   get_error geodetic2enu self lat lon = ret (S754_zero false)) /\
  (forall lat' lon' up' : spec_float,
      geodetic2enu lat' lon' (S754_zero false)
                   (latitude ref) (longitude ref) (S754_zero false)
      = (SFopp east, SFopp north, up') ->
      get_error geodetic2enu self lat' lon'
      = get_error geodetic2enu self lat lon) /\
  (forall a b : Z,
      0 <= a < 32 -> 0 <= b < 32 ->
      east = F64.of_Z a -> north = F64.of_Z b ->
      exists r : spec_float,
        get_error geodetic2enu self lat lon = ret r /\
        SFleb (F64.of_Z (Z.sqrt (a * a + b * b))) r = true /\
        SFltb r (F64.of_Z (Z.sqrt (a * a + b * b) + 1)) = true /\
        (forall c : Z, 0 <= c -> c * c = a * a + b * b -> r = F64.of_Z c)).
Proof.
  intros Htrack Href Henu euclid.
  assert (Hstatic : forall lat' lon' e n u,
             geodetic2enu lat' lon' (S754_zero false)
                          (latitude ref) (longitude ref) (S754_zero false)
             = (e, n, u) ->
             get_error geodetic2enu self lat' lon'
             = ret (if F64.is_nan (norm2 e n) then F64.inf else norm2 e n)).
  { intros lat' lon' e n u He. unfold get_error, horizontal_error.
    rewrite Href, Htrack. cbn [ret bind]. rewrite He. cbn [ret bind app].
    destruct (F64.is_nan (norm2 e n)); reflexivity. }
  assert (Hget := Hstatic lat lon east north up Henu).
  change (norm2 east north) with euclid in Hget.
  split; [exact Hget|]. split; [|split; [|split]].
  - intros Hnan. now rewrite Hget, Hnan.
  - intros He Hn. rewrite Hget. subst euclid.
    change (F64.sqrt (F64.add (F64.mul east east) (F64.mul north north)))
      with (norm2 east north).
    now rewrite (norm2_zeros east north He Hn).
  - intros lat' lon' up' Henu'. rewrite (Hstatic _ _ _ _ _ Henu'), Hget.
    replace (norm2 (SFopp east) (SFopp north)) with euclid; [reflexivity|].
    unfold norm2. cbn [s_sqrt s_add s_mul float64_Scalar]. unfold F64.mul.
    now rewrite !SFmul_opp_square.
  - intros a b Ha Hb -> ->.
    assert (Hcheck : norm_check a b = true).
    { assert (Hall : forall_range 5 0
                       (fun a => forall_range 5 0 (fun b => norm_check a b))
                     = true) by (vm_compute; reflexivity).
      apply (forall_range_spec (fun b => norm_check a b) 5 0);
        [|cbn; lia].
      apply (forall_range_spec
               (fun a => forall_range 5 0 (fun b => norm_check a b)) 5 0 Hall).
      cbn; lia. }
    unfold norm_check in Hcheck. cbv zeta in Hcheck.
    apply andb_prop in Hcheck as [Hcheck Hsq].
    apply andb_prop in Hcheck as [Hlow Hhigh].
    change (norm2 (F64.of_Z a) (F64.of_Z b)) with euclid in *.
    exists euclid. split.
    + rewrite Hget. replace (F64.is_nan euclid) with false; [reflexivity|].
      destruct euclid; try reflexivity. discriminate Hhigh.
    + split; [exact Hlow|]. split; [exact Hhigh|].
      intros c Hc Hcc.
      assert (Hroot : Z.sqrt (a * a + b * b) = c).
      { rewrite <- Hcc. now apply Z.sqrt_square. }
      rewrite Hroot in Hsq. rewrite Hcc, Z.eqb_refl in Hsq.
      now apply sf_eqb_eq.
Qed.
End ErrorProperties.

Lemma get_error_raises_witness :
  get_error unit_enu straight_track S754_nan (F64.of_Z 50)
  = raise GEOSException /\
  get_error unit_enu static_dataset S754_nan (F64.of_Z 50) = ret F64.inf.
Proof.
  destruct (get_error_raises unit_enu) as (Htrack & Hstatic & _).
  split.
  - apply (Htrack straight_track S754_nan (F64.of_Z 50) (node 0 0)
             [(F64.of_Z 0, F64.of_Z 0); (F64.of_Z 100, F64.of_Z 0)]
             (F64.of_Z 50) S754_nan (S754_zero false));
      [reflexivity | reflexivity | vm_compute; reflexivity | now right].
  - apply (Hstatic static_dataset S754_nan (F64.of_Z 50) (node 51 7)
             (F64.of_Z 43) S754_nan (S754_zero false));
      [reflexivity | reflexivity | vm_compute; reflexivity | now right].
Defined.

Lemma get_error_static_witness :
  get_error unit_enu static_dataset (F64.of_Z 51) (F64.of_Z 7)
  = ret (S754_zero false) /\
  get_error unit_enu static_dataset (F64.of_Z 55) (F64.of_Z 10)
  = ret (F64.of_Z 5).
Proof.
  split.
  - refine (proj1 (proj2 (proj2 (get_error_static unit_enu static_dataset
                            (F64.of_Z 51) (F64.of_Z 7) (node 51 7)
                            (S754_zero false) (S754_zero false)
                            (S754_zero false) eq_refl eq_refl _)))
              eq_refl eq_refl).
    vm_compute. reflexivity.
  - assert (Henu : unit_enu (F64.of_Z 55) (F64.of_Z 10) (S754_zero false)
                     (latitude (node 51 7)) (longitude (node 51 7))
                     (S754_zero false)
                   = (F64.of_Z 3, F64.of_Z 4, S754_zero false))
      by (vm_compute; reflexivity).
    pose proof (get_error_static unit_enu static_dataset
                  (F64.of_Z 55) (F64.of_Z 10) (node 51 7)
                  (F64.of_Z 3) (F64.of_Z 4) (S754_zero false)
                  eq_refl eq_refl Henu) as (_ & _ & _ & _ & Hgrid).
    destruct (Hgrid 3 4 ltac:(lia) ltac:(lia) eq_refl eq_refl)
      as (r & Hget & _ & _ & Hsquare).
    rewrite Hget. f_equal. f_equal. apply (Hsquare 5); lia.
Defined.

(** * The claim on the track distance *)

(** When the check holds at a test point, [get_error] returns the minimum
    over the segments for a test location converted to that point. *)
Lemma track_check_get_error (line : list (@coord spec_float)) (x y : Z)
    geodetic2enu (self : Dataset) (lat lon : spec_float)
    (ref : GeodeticPoint) (up : spec_float) :
  track_check line x y = true ->
  _ref_location self = Some ref ->
  _track self = Some line ->
  geodetic2enu lat lon (S754_zero false)
               (latitude ref) (longitude ref) (S754_zero false)
  = (F64.of_Z x, F64.of_Z y, up) ->
  exists d : spec_float,
    outcome (get_error geodetic2enu self lat lon) = Ok d /\
    nearest_distance_spec line (F64.of_Z x, F64.of_Z y) = Some d.
Proof.
  intros Hcheck Href Htrack Henu. unfold track_check in Hcheck.
  unfold get_error, horizontal_error. rewrite Href, Htrack.
  cbn [ret bind]. rewrite Henu.
  destruct (track_error line (F64.of_Z x, F64.of_Z y))
    as [t [e|ex]]; [|discriminate Hcheck].
  destruct (nearest_distance_spec line (F64.of_Z x, F64.of_Z y))
    as [d|]; [|discriminate Hcheck].
  apply andb_prop in Hcheck as [Heq Hnan]. apply sf_eqb_eq in Heq. subst d.
  exists e. cbn [bind]. destruct (F64.is_nan e); [discriminate Hnan|].
  split; reflexivity.
Qed.



(** * Further properties of [get_snapshot] *)

(** ** The raw decoding is one-to-one and onto *)

Lemma unpack_byte_little_bits (b : byte) :
  unpack_byte_little b
  = let '(b0, (b1, (b2, (b3, (b4, (b5, (b6, b7))))))) := Byte.to_bits b in
    [Z.b2z b0; Z.b2z b1; Z.b2z b2; Z.b2z b3;
     Z.b2z b4; Z.b2z b5; Z.b2z b6; Z.b2z b7].
Proof. destruct b; reflexivity. Qed.

Lemma b2z_inj (x y : bool) : Z.b2z x = Z.b2z y -> x = y.
Proof. destruct x, y; cbn; congruence. Qed.

Lemma unpack_byte_little_inj (b b' : byte) :
  unpack_byte_little b = unpack_byte_little b' -> b = b'.
Proof.
  rewrite !unpack_byte_little_bits. intros Heq.
  rewrite <- (Byte.of_bits_to_bits b), <- (Byte.of_bits_to_bits b').
  destruct (Byte.to_bits b) as (b0 & b1 & b2 & b3 & b4 & b5 & b6 & b7).
  destruct (Byte.to_bits b') as (c0 & c1 & c2 & c3 & c4 & c5 & c6 & c7).
  injection Heq as H0 H1 H2 H3 H4 H5 H6 H7.
  apply b2z_inj in H0, H1, H2, H3, H4, H5, H6, H7. now subst.
Qed.

Lemma np_unpackbits_little_cons (b : byte) (a : list byte) :
  np_unpackbits_little (b :: a)
  = unpack_byte_little b ++ np_unpackbits_little a.
Proof. reflexivity. Qed.

Lemma app_inj_length {A} (l1 l1' l2 l2' : list A) :
  List.length l1 = List.length l1' ->
  l1 ++ l2 = l1' ++ l2' -> l1 = l1' /\ l2 = l2'.
Proof.
  revert l1'. induction l1 as [|x l1 IH]; intros [|x' l1'] Hlen Heq;
    try discriminate Hlen; [now split|].
  cbn in Heq. injection Heq as -> Heq. injection Hlen as Hlen.
  destruct (IH _ Hlen Heq) as [-> ->]. now split.
Qed.

Lemma np_unpackbits_little_inj (a a' : list byte) :
  np_unpackbits_little a = np_unpackbits_little a' -> a = a'.
Proof.
  revert a'. induction a as [|b a IH]; intros [|b' a'] Heq.
  - reflexivity.
  - apply (f_equal (@List.length Z)) in Heq.
    rewrite !length_np_unpackbits_little in Heq. cbn [List.length] in Heq. lia.
  - apply (f_equal (@List.length Z)) in Heq.
    rewrite !length_np_unpackbits_little in Heq. cbn [List.length] in Heq. lia.
  - rewrite !np_unpackbits_little_cons in Heq.
    apply app_inj_length in Heq as [Hb Ha];
      [|now rewrite !length_unpack_byte_little].
    f_equal; [now apply unpack_byte_little_inj | now apply IH].
Qed.

Lemma bipolar_inj (x y : Z) : -2 * x + 1 = -2 * y + 1 -> x = y.
Proof. lia. Qed.

Lemma map_inj {A B} (f : A -> B) :
  (forall x y, f x = f y -> x = y) ->
  forall l l' : list A, map f l = map f l' -> l = l'.
Proof.
  intros Hf. induction l as [|x l IH]; intros [|y l'] Heq;
    try discriminate Heq; [reflexivity|].
  cbn in Heq. injection Heq as Hxy Heq. f_equal; auto.
Qed.

(** X1.  The raw decoding loses nothing of what it reads: two files with
    the same raw decoding have the same first 6138 bytes. *)
Theorem decode_injective (buffer buffer' : list byte) :
  decode buffer false = decode buffer' false ->
  firstn (Z.to_nat 6138) buffer = firstn (Z.to_nat 6138) buffer'.
Proof.
  rewrite !decode_raw. intros Heq.
  assert (Hmap : map (fun b => -2 * b + 1)
                     (np_unpackbits_little (firstn (Z.to_nat 6138) buffer))
                 = map (fun b => -2 * b + 1)
                     (np_unpackbits_little (firstn (Z.to_nat 6138) buffer')))
    by congruence.
  apply np_unpackbits_little_inj.
  apply (map_inj _ bipolar_inj _ _ Hmap).
Qed.

Lemma decode_injective_witness :
  firstn (Z.to_nat 6138) [x05; x80] = firstn (Z.to_nat 6138) [x05; x80].
Proof. apply decode_injective. reflexivity. Defined.

Lemma unpack_byte_little_onto (b0 b1 b2 b3 b4 b5 b6 b7 : bool) :
  exists b : byte,
    unpack_byte_little b
    = [Z.b2z b0; Z.b2z b1; Z.b2z b2; Z.b2z b3;
       Z.b2z b4; Z.b2z b5; Z.b2z b6; Z.b2z b7].
Proof.
  exists (Byte.of_bits (b0, (b1, (b2, (b3, (b4, (b5, (b6, b7)))))))).
  rewrite unpack_byte_little_bits. now rewrite Byte.to_bits_of_bits.
Qed.

Lemma np_unpackbits_little_onto (m : nat) :
  forall bits : list Z,
    List.length bits = (8 * m)%nat ->
    Forall (fun z => exists b : bool, z = Z.b2z b) bits ->
    exists a : list byte,
      List.length a = m /\ np_unpackbits_little a = bits.
Proof.
  induction m as [|m IH]; intros bits Hlen Hbits.
  - destruct bits; [|discriminate Hlen]. now exists [].
  - replace (8 * S m)%nat with (S (S (S (S (S (S (S (S (8 * m)))))))))
      in Hlen by lia.
    destruct bits as [|z0 [|z1 [|z2 [|z3 [|z4 [|z5 [|z6 [|z7 rest]]]]]]]];
      try discriminate Hlen.
    injection Hlen as Hlen.
    repeat match goal with
           | H : Forall _ (_ :: _) |- _ =>
               apply Forall_cons_iff in H; destruct H as [[? ->] H]
           end.
    destruct (IH rest Hlen Hbits) as (a & Ha & Hun).
    destruct (unpack_byte_little_onto x x0 x1 x2 x3 x4 x5 x6) as [b Hb].
    exists (b :: a). split; [cbn; now rewrite Ha|].
    now rewrite np_unpackbits_little_cons, Hb, Hun.
Qed.

(** X2.  Every sequence of 49104 samples -1 or +1 is the raw decoding of a
    file of 6138 bytes. *)
Theorem decode_surjective (a : list Z) :
  len a = 49104 ->
  Forall (fun s => s = -1 \/ s = 1) a ->
  exists buffer : list byte,
    len buffer = 6138 /\ decode buffer false = Int8Array a.
Proof.
  intros Hlen Ha.
  destruct (np_unpackbits_little_onto (Z.to_nat 6138)
              (map (fun s => (1 - s) / 2) a)) as (buffer & Hbuf & Hun).
  - rewrite length_map. unfold len in Hlen. lia.
  - apply Forall_map. eapply Forall_impl; [|exact Ha].
    intros s [-> | ->]; [now exists true | now exists false].
  - exists buffer. split; [unfold len; lia|].
    rewrite decode_raw, firstn_all2 by lia. rewrite Hun, map_map. f_equal.
    rewrite <- (map_id a) at 2. apply map_ext_Forall.
    eapply Forall_impl; [|exact Ha]. intros s [-> | ->]; reflexivity.
Qed.

Lemma decode_surjective_witness :
  exists buffer : list byte,
    len buffer = 6138 /\
    decode buffer false = Int8Array (repeat 1 (Z.to_nat 49104)).
Proof.
  apply decode_surjective.
  - unfold len. rewrite repeat_length. lia.
  - apply Forall_forall. intros s Hs. apply repeat_spec in Hs. now right.
Defined.

(** ** Size of the result *)

(** X3.  Whatever the size of the file, the returned array has
    [8 * min(6138, n)] elements for a file of [n] bytes, with or without
    normalisation; and what follows the first 6138 bytes never changes the
    result. *)
Theorem decode_size (buffer : list byte) :
  (exists a : list Z,
      decode buffer false = Int8Array a /\
      len a = 8 * Z.min 6138 (len buffer)) /\
  (exists a : list spec_float,
      decode buffer true = Float32Array a /\
      len a = 8 * Z.min 6138 (len buffer)) /\
  forall (tail : list byte) (normalize : bool),
    6138 <= len buffer ->
    decode (buffer ++ tail) normalize = decode buffer normalize.
Proof.
  split; [|split].
  - eexists. split; [apply decode_raw | apply len_decode_raw].
  - unfold decode. rewrite bytes_per_snapshot_eq.
    destruct (decode_normalized_length (firstn (Z.to_nat 6138) buffer))
      as (a & Ha & Hlen).
    exists a. split; [exact Ha|]. rewrite Hlen. unfold len.
    rewrite length_firstn. lia.
  - intros tail normalize Hlen. unfold decode. rewrite bytes_per_snapshot_eq.
    rewrite firstn_app.
    replace (Z.to_nat 6138 - List.length buffer)%nat with 0%nat
      by (unfold len in Hlen; lia).
    cbn [firstn]. now rewrite app_nil_r.
Qed.

(** ** Indices *)

Lemma getitem_wraps {A} (l : list A) (idx : Z) :
  - len l <= idx < len l ->
  exists x : A,
    nth_error l (Z.to_nat (idx mod len l)) = Some x /\ getitem l idx = ret x.
Proof.
  unfold len. intros Hidx.
  destruct (nth_error l (Z.to_nat (idx mod Z.of_nat (List.length l))))
    as [x|] eqn:Hx.
  2:{ apply nth_error_None in Hx.
      pose proof (Z.mod_pos_bound idx (Z.of_nat (List.length l)) ltac:(lia)).
      lia. }
  exists x. split; [reflexivity|].
  apply getitem_in_range in Hx.
  rewrite Z2Nat.id in Hx by (apply Z.mod_pos_bound; lia).
  destruct (Z_lt_ge_dec idx 0) as [Hneg|Hpos].
  - rewrite getitem_negative by lia.
    replace (idx + Z.of_nat (List.length l))
      with (idx mod Z.of_nat (List.length l)); [exact Hx|].
    symmetry. apply Z.mod_unique with (q := -1); lia.
  - now rewrite Z.mod_small in Hx by lia.
Qed.

(** X4.  With [N] file names, every index in [-N, N) is served: the call
    prints nothing, reads exactly one file, the one named at position
    [idx mod N], and returns its decoding (or lets [FileNotFoundError]
    escape when the file is missing); an index and the index [N] further
    give the same call. *)
Theorem get_snapshot_in_range (self : Dataset) (fs : filesystem) (idx : Z)
    (normalize : bool) (names : list string) :
  _filenames self = Some names ->
  - len names <= idx < len names ->
  (exists name : string,
      nth_error names (Z.to_nat (idx mod len names)) = Some name /\
      get_snapshot self fs idx normalize
      = ([FileRead (os_path_join (_directory self) name)],
         match fs (os_path_join (_directory self) name) with
         | Some buffer => Ok (Some (decode buffer normalize))
         | None => Raise FileNotFoundError
         end)) /\
  (idx < 0 ->
   get_snapshot self fs idx normalize
   = get_snapshot self fs (idx + len names) normalize).
Proof.
  intros Hnames Hidx.
  destruct (getitem_wraps names idx Hidx) as (name & Hnth & Hget).
  split.
  - exists name. split; [exact Hnth|].
    now apply get_snapshot_resolved with (names := names).
  - intros Hneg.
    assert (Hget' : getitem names (idx + len names) = ret name).
    { unfold len in *. now rewrite <- getitem_negative by lia. }
    now rewrite (get_snapshot_resolved self fs idx normalize names name),
      (get_snapshot_resolved self fs _ normalize names name).
Qed.

Lemma get_snapshot_in_range_witness :
  get_snapshot one_snapshot (one_snapshot_fs zero_buffer) (-1) false
  = get_snapshot one_snapshot (one_snapshot_fs zero_buffer)
      (-1 + len ["snapshot_0.bin"%string]) false.
Proof.
  refine (proj2 (get_snapshot_in_range one_snapshot
                   (one_snapshot_fs zero_buffer) (-1) false
                   ["snapshot_0.bin"%string] eq_refl _) _);
    unfold len; cbn; lia.
Defined.

(** X5.  With [N] file names, [get_snapshot] returns [None] exactly for the
    indices outside [-N, N), and reads a file exactly for the indices
    inside. *)
Theorem get_snapshot_none_iff (self : Dataset) (fs : filesystem) (idx : Z)
    (normalize : bool) (names : list string) :
  _filenames self = Some names ->
  (outcome (get_snapshot self fs idx normalize) = Ok None
   <-> idx < - len names \/ len names <= idx) /\
  (existsb is_file_read (events (get_snapshot self fs idx normalize)) = true
   <-> - len names <= idx < len names).
Proof.
  intros Hnames.
  destruct (Z_lt_ge_dec idx (- len names)) as [Hlow|Hlow];
    [|destruct (Z_lt_ge_dec idx (len names)) as [Hin|Hhigh]].
  - rewrite (get_snapshot_index_error self fs idx normalize names Hnames)
      by (apply getitem_out_of_range; unfold len in *; lia).
    cbn. split; split; try (intros; lia); intros; auto; discriminate.
  - destruct (getitem_wraps names idx ltac:(lia)) as (name & _ & Hget).
    rewrite (get_snapshot_resolved self fs idx normalize names name Hnames Hget).
    cbn [outcome events fst snd existsb is_file_read orb].
    split; split; try (intros; lia); auto.
    destruct (fs _); discriminate.
  - rewrite (get_snapshot_index_error self fs idx normalize names Hnames)
      by (apply getitem_out_of_range; unfold len in *; lia).
    cbn. split; split; try (intros; lia); intros; auto; discriminate.
Qed.

Lemma get_snapshot_none_iff_witness :
  outcome (get_snapshot one_snapshot (one_snapshot_fs zero_buffer) 5 false)
  = Ok None
  <-> 5 < - len ["snapshot_0.bin"%string] \/ len ["snapshot_0.bin"%string] <= 5.
Proof.
  exact (proj1 (get_snapshot_none_iff one_snapshot
                  (one_snapshot_fs zero_buffer) 5 false
                  ["snapshot_0.bin"%string] eq_refl)).
Defined.

(** X6.  The only exceptions that escape [get_snapshot] are [TypeError],
    when the dataset has no file names (nothing is then printed or read),
    and [FileNotFoundError], when the file resolved does not exist (after the
    attempt to read it); [IndexError] never escapes. *)
Theorem get_snapshot_raises (self : Dataset) (fs : filesystem) (idx : Z)
    (normalize : bool) (e : exn) :
  outcome (get_snapshot self fs idx normalize) = Raise e ->
  (e = TypeError /\ _filenames self = None /\
   events (get_snapshot self fs idx normalize) = []) \/
  (e = FileNotFoundError /\
   exists filename : string,
     fs filename = None /\
     events (get_snapshot self fs idx normalize) = [FileRead filename]).
Proof.
  destruct (_filenames self) as [names|] eqn:Hnames.
  - destruct (Z_lt_ge_dec idx (- len names)) as [Hlow|Hlow];
      [|destruct (Z_lt_ge_dec idx (len names)) as [Hin|Hhigh]].
    + rewrite (get_snapshot_index_error self fs idx normalize names Hnames)
        by (apply getitem_out_of_range; unfold len in *; lia).
      discriminate.
    + destruct (getitem_wraps names idx ltac:(lia)) as (name & _ & Hget).
      rewrite (get_snapshot_resolved self fs idx normalize names name
                 Hnames Hget).
      cbn [outcome events fst snd].
      destruct (fs (os_path_join (_directory self) name)) eqn:Hfile;
        [discriminate|].
      intros He. injection He as <-. right. split; [reflexivity|]. eauto.
    + rewrite (get_snapshot_index_error self fs idx normalize names Hnames)
        by (apply getitem_out_of_range; unfold len in *; lia).
      discriminate.
  - unfold get_snapshot. rewrite Hnames. cbn.
    intros He. injection He as <-. left. auto.
Qed.

Lemma get_snapshot_raises_witness :
  (FileNotFoundError = TypeError /\ _filenames one_snapshot = None /\
   events (get_snapshot one_snapshot (fun _ => None) 0 false) = []) \/
  (FileNotFoundError = FileNotFoundError /\
   exists filename : string,
     (fun _ : string => @None (list byte)) filename = None /\
     events (get_snapshot one_snapshot (fun _ => None) 0 false)
     = [FileRead filename]).
Proof.
  apply (get_snapshot_raises one_snapshot (fun _ => None) 0 false
           FileNotFoundError).
  reflexivity.
Defined.
